(** * ActiveCalls: the polling pipeline and the alert evaluator

    A shallow embedding of [scripts/fetch_active_calls.py] and
    [scripts/discord_alerts.py].

    - A call record is the Python [dict] decoded from one element of the
      API payload.  The four fields the scripts read
      ([Master_Incident_Number], [Online_Description], [Address],
      [Response_Date]) are strings in the payload, and any of them may be
      absent; a record is therefore a finite map from field names to
      strings, and [call.get(k)] is the map lookup.
    - Python integers are [Z]; [len] is [Z.of_nat (length _)].
    - Python strings are [string]; [upper] acts on the ASCII letters.
    - The files the scripts read and write are the fields of a [store];
      a function that writes a file returns the new store.
    - The clock, the HTTP exchange and the process environment are inputs
      of a run.  Standard output is not modelled: [print] and
      [generate_summary], whose text is only printed, are left out. *)

From Stdlib Require Import ZArith String Ascii List Lia.
From stdpp Require Import base decidable option list gmap strings pretty fin_maps.
From stdpp Require Import sorting.

Open Scope string_scope.
Open Scope list_scope.
Open Scope Z_scope.

(** ** Python strings *)

Module PyStr.

(** [c.upper()] on one ASCII character. *)
Definition upper_ascii (c : ascii) : ascii :=
  let n := nat_of_ascii c in
  if ((97 <=? n) && (n <=? 122))%nat then ascii_of_nat (n - 32) else c.

(** [s.upper()] *)
Fixpoint upper (s : string) : string :=
  match s with
  | EmptyString => EmptyString
  | String c t => String (upper_ascii c) (upper t)
  end.

(** [needle in hay] *)
Fixpoint contains (needle hay : string) : bool :=
  String.prefix needle hay ||
  match hay with
  | EmptyString => false
  | String _ t => contains needle t
  end.

(** [s.replace(old, new)] for a one-character [old]. *)
Fixpoint replace_char (old : ascii) (new : string) (s : string) : string :=
  match s with
  | EmptyString => EmptyString
  | String c t =>
      if Ascii.eqb c old then new +:+ replace_char old new t
      else String c (replace_char old new t)
  end.

(** [c * n] *)
Fixpoint repeat (c : ascii) (n : nat) : string :=
  match n with
  | O => EmptyString
  | S k => String c (repeat c k)
  end.

(** Two decimal digits, zero padded, as [strftime] prints a field. *)
Definition two_digits (n : Z) : string :=
  if n <? 10 then "0" +:+ pretty n else pretty n.

(** [hay] contains [needle] when case is ignored: with both in upper
    case, [hay] is some text, then [needle], then some text. *)
Definition contains_ci (needle hay : string) : Prop :=
  ∃ pre post, upper hay = pre +:+ upper needle +:+ post.

End PyStr.

(** ** Call records *)

Abbreviation call := (gmap string string).

(** [call.get(key)]: [None] when the key is absent. *)
Definition get (c : call) (key : string) : option string := c !! key.

(** [call.get(key, dflt)]. *)
Definition get_default (c : call) (key dflt : string) : string :=
  default dflt (c !! key).

(** [len(xs)] as a Python integer. *)
Definition len {A} (xs : list A) : Z := Z.of_nat (length xs).

(** ** Timestamps of the payload *)

(** The fields of a [datetime] value. *)
Record datetime := mk_datetime {
  dt_year : Z; dt_month : Z; dt_day : Z;
  dt_hour : Z; dt_minute : Z; dt_second : Z
}.

(** [dt.strftime('%I:%M %p')]: twelve-hour clock, minutes, AM or PM. *)
Definition strftime_I_M_p (dt : datetime) : string :=
  let h12 := if dt_hour dt mod 12 =? 0 then 12 else dt_hour dt mod 12 in
  PyStr.two_digits h12 +:+ ":" +:+ PyStr.two_digits (dt_minute dt) +:+ " "
    +:+ (if dt_hour dt <? 12 then "AM" else "PM").

(** A reader for the shape the source documents for the payload,
    ["2024-01-15T14:30:00"], with or without a UTC offset [+HH:MM]:
    digits and separators in place, every field in range.  It reads a
    part of what [datetime.fromisoformat] reads, and is the instance at
    which the model is run on concrete records. *)
Module Iso.

Definition digit (c : ascii) : option Z :=
  let n := nat_of_ascii c in
  if ((48 <=? n) && (n <=? 57))%nat then Some (Z.of_nat (n - 48)) else None.

Fixpoint number (acc : Z) (cs : list ascii) : option Z :=
  match cs with
  | [] => Some acc
  | c :: t => d ← digit c; number (10 * acc + d) t
  end.

Definition is_leap (y : Z) : bool :=
  (y mod 4 =? 0) && (negb (y mod 100 =? 0) || (y mod 400 =? 0)).

Definition days_in_month (y m : Z) : Z :=
  if m =? 2 then (if is_leap y then 29 else 28)
  else if (m =? 4) || (m =? 6) || (m =? 9) || (m =? 11) then 30 else 31.

Definition in_range (lo hi x : Z) : bool := (lo <=? x) && (x <=? hi).

Definition fields (y1 y2 y3 y4 m1 m2 d1 d2 h1 h2 n1 n2 s1 s2 : ascii)
  : option datetime :=
  y ← number 0 [y1; y2; y3; y4];
  m ← number 0 [m1; m2];
  d ← number 0 [d1; d2];
  h ← number 0 [h1; h2];
  n ← number 0 [n1; n2];
  sec ← number 0 [s1; s2];
  if in_range 1 9999 y && in_range 1 12 m
     && in_range 1 (days_in_month y m) d
     && in_range 0 23 h && in_range 0 59 n && in_range 0 59 sec
  then Some (mk_datetime y m d h n sec) else None.

(** A UTC offset [+HH:MM] or [-HH:MM]; the wall-clock fields of the
    value do not depend on it. *)
Definition offset (sign o1 o2 o3 o4 : ascii) : option unit :=
  oh ← number 0 [o1; o2];
  om ← number 0 [o3; o4];
  if (Ascii.eqb sign "+" || Ascii.eqb sign "-")
     && in_range 0 23 oh && in_range 0 59 om
  then Some tt else None.

Definition parse (s : string) : option datetime :=
  match list_ascii_of_string s with
  | [y1; y2; y3; y4; "-"%char; m1; m2; "-"%char; d1; d2; _;
     h1; h2; ":"%char; n1; n2; ":"%char; s1; s2] =>
      fields y1 y2 y3 y4 m1 m2 d1 d2 h1 h2 n1 n2 s1 s2
  | [y1; y2; y3; y4; "-"%char; m1; m2; "-"%char; d1; d2; _;
     h1; h2; ":"%char; n1; n2; ":"%char; s1; s2;
     sign; o1; o2; ":"%char; o3; o4] =>
      _ ← offset sign o1 o2 o3 o4;
      fields y1 y2 y3 y4 m1 m2 d1 d2 h1 h2 n1 n2 s1 s2
  | _ => None
  end.

End Iso.

(** ** Persisted files *)

(** [data/current_calls.json] *)
Record snapshot := mk_snapshot {
  snap_calls : list call;
  snap_timestamp : option string;
  snap_count : option Z
}.

(** One entry of ["snapshots"] in a daily archive file. *)
Record archive_entry := mk_archive_entry {
  entry_timestamp : string;
  entry_call_count : Z;
  entry_calls : list call
}.

(** [data/archive/<date>.json] *)
Record archive_data := mk_archive_data {
  archive_date : string;
  archive_snapshots : list archive_entry
}.

(** [analysis/stats.json] *)
Record stats := mk_stats {
  total_calls_tracked : Z;
  total_resolved : Z;
  call_types : gmap string Z;
  addresses : gmap string Z;
  hourly_distribution : gmap string Z;
  first_tracked : option string;
  last_updated : option string;
  peak_active_calls : Z;
  total_snapshots : Z
}.

(** The files of the repository checkout.  An absent file is [None]; the
    archive directory maps a file name to its content; [ci_output] is the
    text appended to the file named by [GITHUB_OUTPUT]. *)
Record store := mk_store {
  current_calls_file : option snapshot;
  historical_log_file : option string;
  archive_dir : gmap string archive_data;
  stats_file : option stats;
  ci_output : string
}.

Definition empty_store : store := mk_store None None ∅ None EmptyString.

Definition set_current_calls_file (v : option snapshot) (st : store) : store :=
  mk_store v (historical_log_file st) (archive_dir st) (stats_file st)
           (ci_output st).

Definition set_historical_log_file (v : option string) (st : store) : store :=
  mk_store (current_calls_file st) v (archive_dir st) (stats_file st)
           (ci_output st).

Definition set_archive_dir (v : gmap string archive_data) (st : store) : store :=
  mk_store (current_calls_file st) (historical_log_file st) v (stats_file st)
           (ci_output st).

Definition set_stats_file (v : option stats) (st : store) : store :=
  mk_store (current_calls_file st) (historical_log_file st) (archive_dir st) v
           (ci_output st).

Definition set_ci_output (v : string) (st : store) : store :=
  mk_store (current_calls_file st) (historical_log_file st) (archive_dir st)
           (stats_file st) v.

(** [open(HISTORICAL_LOG_FILE, 'a')] then [f.write(text)]: the file is
    created when absent. *)
Definition log_write (text : string) (st : store) : store :=
  set_historical_log_file
    (Some (default EmptyString (historical_log_file st) +:+ text)) st.

(** ** The Fetcher *)

(** The exceptions of [requests] that [requests.get], [raise_for_status]
    and [response.json] raise; each is a [RequestException]
    ([JSONDecodeError] since requests 2.27). *)
Inductive request_exception :=
  | ConnectionError
  | Timeout
  | HTTPError (status : Z)
  | JSONDecodeError.

(** The decoded body, by the shape [fetch_active_calls] tells apart. *)
Inductive payload :=
  | Wrapped (data : list call)   (* a dict with a ['data'] entry *)
  | Bare (items : list call)     (* a list *)
  | OtherShape.                  (* anything else *)

Inductive http_exchange :=
  | Raised (e : request_exception)
  | Decoded (data : payload).

Definition fetch_active_calls (x : http_exchange) : option (list call) :=
  match x with
  | Decoded data =>
      let calls :=
        match data with
        | Wrapped d => d
        | Bare l => l
        | OtherShape => []
        end in
      Some calls
  | Raised _ => None
  end.

(** ** The Snapshot Store *)

Definition load_previous_calls (st : store) : snapshot :=
  match current_calls_file st with
  | Some data => data
  | None => mk_snapshot [] None None
  end.

Definition save_current_calls (calls : list call) (timestamp : string)
    (st : store) : store :=
  let data := mk_snapshot calls (Some timestamp) (Some (len calls)) in
  set_current_calls_file (Some data) st.

(** ** The Differ *)

Definition incident_id (c : call) : option string :=
  get c "Master_Incident_Number".

(** [{call.get('Master_Incident_Number') for call in calls}] *)
Definition id_set (calls : list call) : gset (option string) :=
  list_to_set (incident_id <$> calls).

Definition compare_calls (previous_calls current_calls : list call)
  : list call * list call :=
  let prev_ids := id_set previous_calls in
  let curr_ids := id_set current_calls in
  let new_ids := curr_ids ∖ prev_ids in
  let resolved_ids := prev_ids ∖ curr_ids in
  let new_calls := filter (λ c, incident_id c ∈ new_ids) current_calls in
  let resolved_calls :=
    filter (λ c, incident_id c ∈ resolved_ids) previous_calls in
  (new_calls, resolved_calls).

(** ** Statistics *)

(** The record [update_stats] starts from when [stats.json] is absent. *)
Definition default_stats : stats :=
  {| total_calls_tracked := 0;
     total_resolved := 0;
     call_types := ∅;
     addresses := ∅;
     hourly_distribution := list_to_map ((λ i : Z, (pretty i, 0)) <$> seqZ 0 24);
     first_tracked := None;
     last_updated := None;
     peak_active_calls := 0;
     total_snapshots := 0 |}.

(** [table[key] = table.get(key, 0) + 1] *)
Definition tick (key : string) (table : gmap string Z) : gmap string Z :=
  <[key := default 0 (table !! key) + 1]> table.

(** The sum of the counts of a frequency table. *)
Definition table_sum (table : gmap string Z) : Z :=
  map_fold (λ _ n acc, n + acc) 0 table.

(** The largest of the counts seen so far, from an initial peak of zero. *)
Definition max_count (counts : list Z) : Z := foldr Z.max 0 counts.

Definition nl : string := String (ascii_of_nat 10) EmptyString.

Section Pipeline.

(** [datetime.fromisoformat]: [None] stands for [ValueError]. *)
Variable fromisoformat : string → option datetime.

Definition parse_response_date (response_date_str : string)
  : option datetime :=
  fromisoformat (PyStr.replace_char "Z" "+00:00" response_date_str).

(** *** The Historical Log Writer *)

Definition format_call_for_log (c : call) (status : string) : string :=
  let incident_num := get_default c "Master_Incident_Number" "UNKNOWN" in
  let description := get_default c "Online_Description" "Unknown Call Type" in
  let address := get_default c "Address" "Unknown Location" in
  let response_date := get_default c "Response_Date" EmptyString in
  let parsed_time := parse_response_date response_date in
  let time_str :=
    match parsed_time with
    | Some dt => strftime_I_M_p dt
    | None => "Unknown Time"
    end in
  "[" +:+ status +:+ "] " +:+ incident_num +:+ " | " +:+ description
    +:+ " | " +:+ address +:+ " | Response: " +:+ time_str.

Definition log_lines (status : string) (calls : list call) : string :=
  foldr (λ c rest, format_call_for_log c status +:+ nl +:+ rest) EmptyString calls.

(** The text one call of [append_to_log] writes. *)
Definition log_block (timestamp : string) (new_calls resolved_calls : list call)
    (total_active : Z) : string :=
  let rule := PyStr.repeat "=" 80 in
  nl +:+ rule +:+ nl
  +:+ "TIMESTAMP: " +:+ timestamp +:+ nl
  +:+ "TOTAL ACTIVE CALLS: " +:+ pretty total_active +:+ nl
  +:+ rule +:+ nl
  +:+ (match new_calls with
       | [] => EmptyString
       | _ => nl +:+ "--- NEW CALLS (" +:+ pretty (len new_calls) +:+ ") ---"
              +:+ nl +:+ log_lines "NEW" new_calls
       end)
  +:+ (match resolved_calls with
       | [] => EmptyString
       | _ => nl +:+ "--- RESOLVED CALLS (" +:+ pretty (len resolved_calls)
              +:+ ") ---" +:+ nl +:+ log_lines "RESOLVED" resolved_calls
       end)
  +:+ (match new_calls, resolved_calls with
       | [], [] => nl +:+ "No changes since last check." +:+ nl
       | _, _ => EmptyString
       end).

Definition append_to_log (timestamp : string)
    (new_calls resolved_calls : list call) (total_active : Z)
    (st : store) : store :=
  log_write (log_block timestamp new_calls resolved_calls total_active) st.

(** *** The Archiver *)

Definition archive_name (date_str : string) : string := date_str +:+ ".json".

(** [date_str] is [datetime.now().strftime('%Y-%m-%d')]. *)
Definition archive_daily_data (date_str : string) (calls : list call)
    (timestamp : string) (st : store) : store :=
  let archive_file := archive_name date_str in
  let loaded :=
    match archive_dir st !! archive_file with
    | Some data => data
    | None => mk_archive_data date_str []
    end in
  let entry := mk_archive_entry timestamp (len calls) calls in
  let saved :=
    mk_archive_data (archive_date loaded) (archive_snapshots loaded ++ [entry]) in
  set_archive_dir (<[archive_file := saved]> (archive_dir st)) st.

(** *** The Stats Aggregator *)

(** The body of the loop over [new_calls]. *)
Definition track_call (s : stats) (c : call) : stats :=
  let call_type := get_default c "Online_Description" "Unknown" in
  let call_types' := tick call_type (call_types s) in
  let address := get_default c "Address" "Unknown" in
  let addresses' := tick address (addresses s) in
  let response_date := get_default c "Response_Date" EmptyString in
  let parsed_time := parse_response_date response_date in
  let hourly' :=
    match parsed_time with
    | Some dt => tick (pretty (dt_hour dt)) (hourly_distribution s)
    | None => hourly_distribution s
    end in
  {| total_calls_tracked := total_calls_tracked s;
     total_resolved := total_resolved s;
     call_types := call_types';
     addresses := addresses';
     hourly_distribution := hourly';
     first_tracked := first_tracked s;
     last_updated := last_updated s;
     peak_active_calls := peak_active_calls s;
     total_snapshots := total_snapshots s |}.

(** The statements of [update_stats] between loading and saving;
    [timestamp] is [datetime.now(timezone.utc).isoformat()]. *)
Definition aggregate (timestamp : string) (new_calls resolved_calls : list call)
    (total_active : Z) (s : stats) : stats :=
  let counted :=
    {| total_calls_tracked := total_calls_tracked s + len new_calls;
       total_resolved := total_resolved s + len resolved_calls;
       call_types := call_types s;
       addresses := addresses s;
       hourly_distribution := hourly_distribution s;
       first_tracked :=
         match first_tracked s with
         | None => Some timestamp
         | Some t => Some t
         end;
       last_updated := Some timestamp;
       peak_active_calls :=
         if peak_active_calls s <? total_active then total_active
         else peak_active_calls s;
       total_snapshots := total_snapshots s + 1 |} in
  foldl track_call counted new_calls.

Definition update_stats (timestamp : string)
    (new_calls resolved_calls : list call) (total_active : Z) (st : store)
  : stats * store :=
  let loaded := default default_stats (stats_file st) in
  let s := aggregate timestamp new_calls resolved_calls total_active loaded in
  (s, set_stats_file (Some s) st).

(** *** The main pipeline *)

(** What one run reads from outside the checkout. *)
Record run_env := mk_run_env {
  exchange : http_exchange;      (* the GET and the decoding of its body *)
  started_at : string;           (* the clock when the log is initialised *)
  fetched_at : string;           (* the clock after the fetch *)
  local_date : string;           (* the local date in the Archiver *)
  stats_at : string;             (* the clock in the Stats Aggregator *)
  github_output : bool           (* is [GITHUB_OUTPUT] set *)
}.

Definition log_banner (now : string) : string :=
  "CLEARWATER PD ACTIVE CALLS - HISTORICAL LOG" +:+ nl
  +:+ "Tracking started: " +:+ now +:+ nl
  +:+ PyStr.repeat "=" 80 +:+ nl.

(** [if not HISTORICAL_LOG_FILE.exists(): ...] *)
Definition init_log (now : string) (st : store) : store :=
  match historical_log_file st with
  | Some _ => st
  | None => set_historical_log_file (Some (log_banner now)) st
  end.

Definition ci_lines (current_calls new_calls resolved_calls : list call)
  : string :=
  "total_active=" +:+ pretty (len current_calls) +:+ nl
  +:+ "new_calls=" +:+ pretty (len new_calls) +:+ nl
  +:+ "resolved_calls=" +:+ pretty (len resolved_calls) +:+ nl.

(** [main]: the exit code and the files after the run. *)
Definition main (env : run_env) (st : store) : Z * store :=
  let st := init_log (started_at env) st in
  match fetch_active_calls (exchange env) with
  | None => (1, st)
  | Some current_calls =>
      let timestamp := fetched_at env in
      let previous_data := load_previous_calls st in
      let previous_calls := snap_calls previous_data in
      let '(new_calls, resolved_calls) :=
        compare_calls previous_calls current_calls in
      let st :=
        append_to_log timestamp new_calls resolved_calls (len current_calls) st in
      let st := save_current_calls current_calls timestamp st in
      let st := archive_daily_data (local_date env) current_calls timestamp st in
      let '(_, st) :=
        update_stats (stats_at env) new_calls resolved_calls
                     (len current_calls) st in
      let st :=
        if github_output env
        then set_ci_output
               (ci_output st +:+ ci_lines current_calls new_calls resolved_calls) st
        else st in
      (0, st)
  end.

(** The files after a sequence of runs. *)
Definition run_all (envs : list run_env) (st : store) : store :=
  foldl (λ st env, snd (main env st)) st envs.

(** The active-call counts of the runs whose fetch succeeded. *)
Definition observed_counts (envs : list run_env) : list Z :=
  omap (λ env, len <$> fetch_active_calls (exchange env)) envs.

End Pipeline.

(** ** The Alert Evaluator: [discord_alerts.py] *)

Module Alerts.

Definition ALERT_CALL_TYPES : list string :=
  ["TRAFFIC STOP"; "PEDESTRIAN STOP"; "SUSPICIOUS PERSON"; "SUSPICIOUS VEHICLE"].

Definition ALERT_ADDRESSES : list string := [].

Definition HIGH_VOLUME_THRESHOLD : Z := 10.

Record alert := mk_alert {
  title : string;
  description : string;
  color : Z
}.

Definition volume_alert (current_calls : list call) : alert :=
  {| title := "🚨 High Activity: " +:+ pretty (len current_calls)
              +:+ " Active Calls";
     description := "CPD is handling an unusually high number of calls.";
     color := 0xFF0000 |}.

Definition type_alert (call_type address incident : string) : alert :=
  {| title := "📍 " +:+ call_type;
     description := "**Location:** " +:+ address +:+ nl
                    +:+ "**Incident:** " +:+ incident;
     color := 0xFFA500 |}.

Definition address_alert (call_type address incident : string) : alert :=
  {| title := "📍 Activity at Watched Location";
     description := "**Type:** " +:+ call_type +:+ nl
                    +:+ "**Location:** " +:+ address +:+ nl
                    +:+ "**Incident:** " +:+ incident;
     color := 0xFFFF00 |}.

(** [for x in xs: if test(x): alerts.append(a); break]: the entry the
    loop stops at, if any. *)
Fixpoint first_match {A} (test : A → bool) (xs : list A) : option A :=
  match xs with
  | [] => None
  | x :: rest => if test x then Some x else first_match test rest
  end.

(** The loop over [ALERT_CALL_TYPES] for one record. *)
Definition type_rule (types : list string) (c : call) : list alert :=
  let call_type := PyStr.upper (get_default c "Online_Description" EmptyString) in
  let address := get_default c "Address" EmptyString in
  let incident := get_default c "Master_Incident_Number" EmptyString in
  match first_match (λ alert_type, PyStr.contains alert_type call_type) types with
  | Some _ => [type_alert call_type address incident]
  | None => []
  end.

(** The loop over [ALERT_ADDRESSES] for one record. *)
Definition address_rule (addrs : list string) (c : call) : list alert :=
  let call_type := PyStr.upper (get_default c "Online_Description" EmptyString) in
  let address := get_default c "Address" EmptyString in
  let incident := get_default c "Master_Incident_Number" EmptyString in
  match first_match
          (λ alert_addr,
             PyStr.contains (PyStr.upper alert_addr) (PyStr.upper address))
          addrs with
  | Some _ => [address_alert call_type address incident]
  | None => []
  end.

(** The alerts one iteration of the loop over [new_calls] appends. *)
Definition record_alerts (types addrs : list string) (c : call) : list alert :=
  type_rule types c ++ address_rule addrs c.

Definition volume_rule (threshold : Z) (current_calls : list call)
  : list alert :=
  if threshold <=? len current_calls then [volume_alert current_calls] else [].

Definition check_alerts_with (threshold : Z) (types addrs : list string)
    (current_calls new_calls : list call) : list alert :=
  foldl (λ alerts c, alerts ++ record_alerts types addrs c)
        (volume_rule threshold current_calls) new_calls.

Definition check_alerts (current_calls new_calls : list call) : list alert :=
  check_alerts_with HIGH_VOLUME_THRESHOLD ALERT_CALL_TYPES ALERT_ADDRESSES
                    current_calls new_calls.

(** The body of one webhook POST. *)
Record embed := mk_embed {
  embed_title : string;
  embed_description : string;
  embed_color : Z;
  embed_footer : string
}.

Inductive send_outcome :=
  | NotConfigured              (* no webhook: nothing is posted *)
  | Sent (body : embed)        (* the POST went through *)
  | Failed (body : embed).     (* the POST raised; the error is printed *)

Definition body_of (a : alert) : embed :=
  mk_embed (title a) (description a) (color a) "CPD Active Calls Tracker".

(** [webhook] is [DISCORD_WEBHOOK_URL]; [accepted] tells whether the
    POST of a body goes through. *)
Definition send_discord_alert (webhook : option string)
    (accepted : embed → bool) (a : alert) : send_outcome :=
  match webhook with
  | None | Some EmptyString => NotConfigured
  | Some _ =>
      let body := body_of a in
      if accepted body then Sent body else Failed body
  end.

(** [main]: one outcome per call of [send_discord_alert], in order. *)
Definition main (webhook : option string) (accepted : embed → bool)
    (st : store) : list send_outcome :=
  match current_calls_file st with
  | None => []
  | Some data =>
      let current_calls := snap_calls data in
      let alerts := check_alerts current_calls current_calls in
      send_discord_alert webhook accepted <$> take 5 alerts
  end.

(** The bodies that reached the webhook. *)
Definition delivered (outcomes : list send_outcome) : list embed :=
  omap (λ o, match o with Sent b => Some b | _ => None end) outcomes.

End Alerts.

(** ** Stats Aggregator runs *)

(** The arguments of one call of [update_stats], with its clock reading. *)
Record stats_input := mk_stats_input {
  in_timestamp : string;
  in_new_calls : list call;
  in_resolved_calls : list call;
  in_total_active : Z
}.

Section StatsRuns.

Variable fromisoformat : string → option datetime.

Definition stats_step (st : store) (i : stats_input) : store :=
  snd (update_stats fromisoformat (in_timestamp i) (in_new_calls i)
                    (in_resolved_calls i) (in_total_active i) st).

(** The files after a sequence of Stats Aggregator runs. *)
Definition stats_runs (inputs : list stats_input) (st : store) : store :=
  foldl stats_step st inputs.

End StatsRuns.

(** What [update_stats] loads from a store. *)
Definition loaded_stats (st : store) : stats :=
  default default_stats (stats_file st).

(** The invariant tying the frequency tables to the running total. *)
Definition tables_consistent (s : stats) : Prop :=
  table_sum (call_types s) = total_calls_tracked s
  ∧ table_sum (addresses s) = total_calls_tracked s
  ∧ table_sum (hourly_distribution s) ≤ total_calls_tracked s.

(** The count a table holds for a key, zero when the key is unseen. *)
Definition count_of (key : string) (table : gmap string Z) : Z :=
  default 0 (table !! key).

(** ** Sample records *)

Definition mk_call (fields : list (string * string)) : call :=
  list_to_map fields.

Definition call_A1 : call := mk_call [("Master_Incident_Number", "A1")].
Definition call_B2 : call := mk_call [("Master_Incident_Number", "B2")].

Definition keyless_1 : call := mk_call [("Address", "100 CLEVELAND ST")].
Definition keyless_2 : call := mk_call [("Address", "9 COURT ST")].

Definition call_stop : call :=
  mk_call [("Master_Incident_Number", "C3");
           ("Online_Description", "Traffic Stop");
           ("Address", "100 CLEVELAND ST");
           ("Response_Date", "2024-01-15T14:30:00")].

Definition call_bad_date : call :=
  mk_call [("Master_Incident_Number", "D4");
           ("Online_Description", "ARMED ROBBERY");
           ("Address", "100 CLEVELAND ST");
           ("Response_Date", "not-a-date")].

(** Sample inputs of the Stats Aggregator. *)
Definition input_1 : stats_input :=
  mk_stats_input "2024-01-15T19:31:02+00:00" [call_stop; call_bad_date] [] 2.

Definition input_2 : stats_input :=
  mk_stats_input "2024-01-15T19:46:10+00:00" [call_A1] [call_bad_date] 2.

(** Sample runs. *)
Definition env_timeout : run_env :=
  mk_run_env (Raised Timeout) "2024-01-15T19:30:00+00:00"
             "2024-01-15T19:30:31+00:00" "2024-01-15"
             "2024-01-15T19:30:32+00:00" false.

Definition env_two_calls : run_env :=
  mk_run_env (Decoded (Bare [call_stop; call_bad_date]))
             "2024-01-15T19:45:00+00:00" "2024-01-15T19:45:01+00:00"
             "2024-01-15" "2024-01-15T19:45:02+00:00" true.

Definition env_one_call : run_env :=
  mk_run_env (Decoded (Wrapped [call_stop]))
             "2024-01-16T00:05:00+00:00" "2024-01-16T00:05:01+00:00"
             "2024-01-15" "2024-01-16T00:05:02+00:00" false.

(** Sample snapshots for the Alert Evaluator. *)
Definition call_lower : call :=
  mk_call [("Master_Incident_Number", "E5");
           ("Online_Description", "suspicious person - traffic stop");
           ("Address", "1 MAIN ST")].

Definition store_with (calls : list call) : store :=
  save_current_calls calls "2024-01-15T19:45:01+00:00" empty_store.

Definition twelve_calls : list call :=
  call_stop :: call_lower :: call_bad_date :: replicate 9 call_stop.

(** ** The Summary Renderer *)

(** [sorted(items, key=lambda x: x[1], reverse=True)] is stable: entries
    of equal count keep the order of [items].  Inserting an entry that
    came before all of [sorted] puts it after the entries of larger count
    and before those of equal or smaller count. *)
Fixpoint insert_by_count (x : string * Z) (sorted : list (string * Z))
  : list (string * Z) :=
  match sorted with
  | [] => [x]
  | y :: rest =>
      if snd y <=? snd x then x :: y :: rest
      else y :: insert_by_count x rest
  end.

Definition sorted_by_count (items : list (string * Z)) : list (string * Z) :=
  foldr insert_by_count [] items.

(** [sorted(...)[:10]] *)
Definition top_10 (items : list (string * Z)) : list (string * Z) :=
  take 10 (sorted_by_count items).

(** [str(x)] for a value that is a string or [None]. *)
Definition str_of_optional (x : option string) : string := default "None" x.

Definition summary_entries (entries : list (string * Z)) : string :=
  foldr (λ e rest, "- " +:+ fst e +:+ ": " +:+ pretty (snd e) +:+ nl +:+ rest)
        EmptyString entries.

(** [generate_summary]; [type_items] and [address_items] are
    [stats["call_types"].items()] and [stats["addresses"].items()] in the
    order of the dictionaries, which the finite maps do not record. *)
Definition generate_summary (type_items address_items : list (string * Z))
    (s : stats) : string :=
  let top_call_types := top_10 type_items in
  let top_addresses := top_10 address_items in
  "## CPD Active Calls Tracker - Statistics" +:+ nl
  +:+ "**Last Updated:** " +:+ str_of_optional (last_updated s) +:+ nl
  +:+ "**Tracking Since:** " +:+ str_of_optional (first_tracked s) +:+ nl
  +:+ "**Total Snapshots:** " +:+ pretty (total_snapshots s) +:+ nl
  +:+ "**Total Calls Tracked:** " +:+ pretty (total_calls_tracked s) +:+ nl
  +:+ "**Total Resolved:** " +:+ pretty (total_resolved s) +:+ nl
  +:+ "**Peak Active Calls:** " +:+ pretty (peak_active_calls s) +:+ nl
  +:+ nl +:+ "### Top 10 Call Types" +:+ nl
  +:+ summary_entries top_call_types
  +:+ nl +:+ "### Top 10 Addresses" +:+ nl
  +:+ summary_entries top_addresses.

(** ** Measures of a sequence of Stats Aggregator runs *)

(** The hour bucket a record falls in, if its response time parses. *)
Definition hour_key (fromisoformat : string → option datetime) (c : call)
  : option string :=
  (λ dt, pretty (dt_hour dt)) <$>
    parse_response_date fromisoformat (get_default c "Response_Date" EmptyString).

Definition total_new (inputs : list stats_input) : Z :=
  foldr (λ i acc, len (in_new_calls i) + acc) 0 inputs.

Definition total_gone (inputs : list stats_input) : Z :=
  foldr (λ i acc, len (in_resolved_calls i) + acc) 0 inputs.

(** One text is the beginning of another. *)
Definition starts_with (text whole : string) : Prop :=
  ∃ rest, whole = text +:+ rest.

(** One snapshot sequence is the beginning of another. *)
Definition extends_archive (old new : archive_data) : Prop :=
  archive_date new = archive_date old
  ∧ ∃ added, archive_snapshots new = archive_snapshots old ++ added.

(** A lower-case ASCII letter. *)
Definition is_lower (c : ascii) : bool :=
  let n := nat_of_ascii c in ((97 <=? n) && (n <=? 122))%nat.

Fixpoint has_lower (s : string) : bool :=
  match s with
  | EmptyString => false
  | String c t => is_lower c || has_lower t
  end.

(** Does the text hold the character? *)
Fixpoint has_char (ch : ascii) (s : string) : bool :=
  match s with
  | EmptyString => false
  | String c t => Ascii.eqb c ch || has_char ch t
  end.

(** The text holds ASCII characters only.  On such a text [str.upper()]
    changes the letters [a] to [z] and nothing else, as [PyStr.upper]
    does; on other text [str.upper()] follows Unicode and [PyStr.upper]
    does not stand for it. *)
Fixpoint ascii_only (s : string) : bool :=
  match s with
  | EmptyString => true
  | String c t => (nat_of_ascii c <? 128)%nat && ascii_only t
  end.

Definition sample_items : list (string * Z) :=
  [("TRAFFIC STOP", 3); ("ALARM", 7); ("WELFARE CHECK", 3); ("THEFT", 1);
   ("NOISE", 7)].

Definition env_unknown_shape : run_env :=
  mk_run_env (Decoded OtherShape)
             "2024-01-15T20:00:00+00:00" "2024-01-15T20:00:01+00:00"
             "2024-01-15" "2024-01-15T20:00:02+00:00" false.

Definition env_two_calls_again : run_env :=
  mk_run_env (Decoded (Wrapped [call_stop; call_bad_date]))
             "2024-01-15T20:00:00+00:00" "2024-01-15T20:00:01+00:00"
             "2024-01-15" "2024-01-15T20:00:02+00:00" false.

(** * Properties *)

(** ** Python strings *)

Lemma app_cons (a : ascii) (s t : string) :
  String a s +:+ t = String a (s +:+ t).
Proof. reflexivity. Qed.

Lemma app_empty (t : string) : EmptyString +:+ t = t.
Proof. reflexivity. Qed.

Lemma prefix_spec (p s : string) :
  String.prefix p s = true ↔ ∃ post, s = p +:+ post.
Proof.
  revert s. induction p as [|a p IH]; intros s.
  - split; [intros _; by exists s | by destruct s].
  - destruct s as [|b s]; simpl.
    + split; [done | intros [post H]; discriminate].
    + setoid_rewrite app_cons.
      destruct (ascii_dec a b) as [->|Hne].
      * rewrite IH. split; intros [post H]; exists post; congruence.
      * split; [done | intros [post H]; congruence].
Qed.

Lemma contains_empty (needle : string) :
  PyStr.contains needle EmptyString = String.prefix needle EmptyString || false.
Proof. reflexivity. Qed.

Lemma contains_cons (needle : string) (b : ascii) (hay : string) :
  PyStr.contains needle (String b hay) =
    String.prefix needle (String b hay) || PyStr.contains needle hay.
Proof. reflexivity. Qed.

(** [needle in hay] holds exactly when [hay] splits around [needle]. *)
Lemma contains_spec (needle hay : string) :
  PyStr.contains needle hay = true ↔ ∃ pre post, hay = pre +:+ needle +:+ post.
Proof.
  induction hay as [|b hay IH].
  - rewrite contains_empty, orb_false_r, prefix_spec. split.
    + intros [post H]. by exists EmptyString, post.
    + intros [pre [post H]]. destruct pre; [by exists post | discriminate].
  - rewrite contains_cons, orb_true_iff, prefix_spec, IH. split.
    + intros [[post H] | [pre [post H]]].
      * by exists EmptyString, post.
      * exists (String b pre), post. rewrite app_cons. by rewrite H.
    + intros [pre [post H]]. destruct pre as [|c pre].
      * left. by exists post.
      * right. exists pre, post. rewrite app_cons in H. congruence.
Qed.

(** ** The Differ *)

Lemma filter_ext_in {A} (P1 P2 : A → Prop)
    `{!∀ x, Decision (P1 x), !∀ x, Decision (P2 x)} (l : list A) :
  (∀ x, x ∈ l → (P1 x ↔ P2 x)) → filter P1 l = filter P2 l.
Proof.
  induction l as [|a l IH]; intros Hext; [done|].
  rewrite !filter_cons.
  assert (P1 a ↔ P2 a) as Ha by (apply Hext; left).
  rewrite IH by (intros x Hx; apply Hext; by right).
  destruct (decide (P1 a)), (decide (P2 a)); tauto.
Qed.

Lemma elem_of_id_set (i : option string) (calls : list call) :
  i ∈ id_set calls ↔ i ∈ (incident_id <$> calls).
Proof. unfold id_set. apply elem_of_list_to_set. Qed.

Lemma compare_calls_filter (previous_calls current_calls : list call) :
  compare_calls previous_calls current_calls =
    (filter (λ c, incident_id c ∉ (incident_id <$> previous_calls)) current_calls,
     filter (λ c, incident_id c ∉ (incident_id <$> current_calls)) previous_calls).
Proof.
  unfold compare_calls. f_equal.
  - apply filter_ext_in. intros c Hc.
    rewrite elem_of_difference, !elem_of_id_set.
    split; [tauto|]. intros Hn. split; [|done].
    apply list_elem_of_fmap. by exists c.
  - apply filter_ext_in. intros c Hc.
    rewrite elem_of_difference, !elem_of_id_set.
    split; [tauto|]. intros Hn. split; [|done].
    apply list_elem_of_fmap. by exists c.
Qed.

(** C2: the new records are exactly the current records whose identifier
    occurs among no previous record's identifier, the resolved records
    exactly the previous records whose identifier occurs among no current
    record's identifier, and each output keeps the order (and the
    repetitions) of the sequence it is taken from. *)
Theorem compare_calls_exact (previous_calls current_calls : list call) :
  let new_calls := fst (compare_calls previous_calls current_calls) in
  let resolved_calls := snd (compare_calls previous_calls current_calls) in
  new_calls =
    filter (λ c, incident_id c ∉ (incident_id <$> previous_calls)) current_calls
  ∧ resolved_calls =
    filter (λ c, incident_id c ∉ (incident_id <$> current_calls)) previous_calls
  ∧ (∀ c, c ∈ new_calls ↔
          c ∈ current_calls ∧ ¬ ∃ p, p ∈ previous_calls ∧ incident_id p = incident_id c)
  ∧ (∀ c, c ∈ resolved_calls ↔
          c ∈ previous_calls ∧ ¬ ∃ q, q ∈ current_calls ∧ incident_id q = incident_id c)
  ∧ new_calls `sublist_of` current_calls
  ∧ resolved_calls `sublist_of` previous_calls.
Proof.
  intros new_calls resolved_calls. subst new_calls resolved_calls.
  rewrite compare_calls_filter. simpl.
  split; [done|]. split; [done|].
  assert (∀ (c : call) (l : list call),
            incident_id c ∉ (incident_id <$> l) ↔
            ¬ ∃ p, p ∈ l ∧ incident_id p = incident_id c) as Hmem.
  { intros c l. rewrite list_elem_of_fmap. split.
    - intros Hn [p [Hp Heq]]. apply Hn. by exists p.
    - intros Hn [p [Heq Hp]]. apply Hn. by exists p. }
  split; [|split; [|split]].
  - intros c. rewrite list_elem_of_filter, Hmem. tauto.
  - intros c. rewrite list_elem_of_filter, Hmem. tauto.
  - apply sublist_filter.
  - apply sublist_filter.
Qed.

Example compare_calls_added :
  compare_calls [call_A1] [call_A1; call_B2] = ([call_B2], []).
Proof. vm_compute. reflexivity. Qed.

(** C9: when a record without the identifier key occurs in both the
    previous and the current sequence, no record without the key is
    reported as new or as resolved. *)
Theorem compare_calls_keyless (previous_calls current_calls : list call)
    (Hprev : ∃ p, p ∈ previous_calls ∧ incident_id p = None)
    (Hcurr : ∃ q, q ∈ current_calls ∧ incident_id q = None) :
  ∀ c, incident_id c = None →
       (c ∉ fst (compare_calls previous_calls current_calls))
       ∧ (c ∉ snd (compare_calls previous_calls current_calls)).
Proof.
  intros c Hc. rewrite compare_calls_filter. simpl.
  destruct Hprev as [p [Hp Hpid]], Hcurr as [q [Hq Hqid]].
  rewrite !list_elem_of_filter, Hc.
  split; intros [Hn _]; apply Hn; apply list_elem_of_fmap.
  - by exists p.
  - by exists q.
Qed.

Lemma compare_calls_keyless_witness :
  (∃ p, p ∈ [keyless_1; call_A1] ∧ incident_id p = None)
  ∧ (∃ q, q ∈ [keyless_2] ∧ incident_id q = None)
  ∧ keyless_1 ≠ keyless_2
  ∧ (keyless_2 ∉ fst (compare_calls [keyless_1; call_A1] [keyless_2]))
  ∧ (keyless_1 ∉ snd (compare_calls [keyless_1; call_A1] [keyless_2])).
Proof.
  assert (∃ p, p ∈ [keyless_1; call_A1] ∧ incident_id p = None) as Hp.
  { exists keyless_1. split; [left | reflexivity]. }
  assert (∃ q, q ∈ [keyless_2] ∧ incident_id q = None) as Hq.
  { exists keyless_2. split; [left | reflexivity]. }
  split; [exact Hp|]. split; [exact Hq|]. split.
  - intros H. apply (f_equal (λ c : call, c !! "Address")) in H.
    vm_compute in H. discriminate.
  - split.
    + apply (compare_calls_keyless _ _ Hp Hq keyless_2). reflexivity.
    + apply (compare_calls_keyless _ _ Hp Hq keyless_1). reflexivity.
Defined.

(** ** The Stats Aggregator *)

Lemma table_sum_empty : table_sum ∅ = 0.
Proof. unfold table_sum. apply map_fold_empty. Qed.

Lemma table_sum_insert_fresh (key : string) (n : Z) (table : gmap string Z) :
  table !! key = None → table_sum (<[key := n]> table) = n + table_sum table.
Proof.
  intros Hfresh. unfold table_sum.
  rewrite map_fold_insert_L; [done | intros; lia | done].
Qed.

Lemma table_sum_delete (key : string) (n : Z) (table : gmap string Z) :
  table !! key = Some n → table_sum table = n + table_sum (delete key table).
Proof.
  intros Hkey. unfold table_sum.
  rewrite (map_fold_delete_L _ _ key n table); [done | intros; lia | done].
Qed.

(** One tick adds exactly one to the sum of a table. *)
Lemma table_sum_tick (key : string) (table : gmap string Z) :
  table_sum (tick key table) = table_sum table + 1.
Proof.
  unfold tick. destruct (table !! key) as [n|] eqn:Hkey; simpl.
  - rewrite <- insert_delete_eq.
    rewrite table_sum_insert_fresh by apply lookup_delete_eq.
    rewrite (table_sum_delete key n table Hkey). lia.
  - rewrite table_sum_insert_fresh by done. lia.
Qed.

Lemma table_sum_default_hours :
  table_sum (hourly_distribution default_stats) = 0.
Proof. vm_compute. reflexivity. Qed.

Lemma count_of_tick (key key' : string) (table : gmap string Z) :
  count_of key' (tick key table) =
    if decide (key = key') then count_of key' table + 1 else count_of key' table.
Proof.
  unfold count_of, tick. rewrite lookup_insert.
  destruct (decide (key = key')) as [->|]; reflexivity.
Qed.

Section StatsProperties.

Variable fromisoformat : string → option datetime.

Local Abbreviation track_call := (track_call fromisoformat).
Local Abbreviation aggregate := (aggregate fromisoformat).
Local Abbreviation update_stats := (update_stats fromisoformat).

(** The loop over the new records changes the three tables only. *)
Lemma track_calls_scalars (new_calls : list call) (s : stats) :
  let s' := foldl track_call s new_calls in
  total_calls_tracked s' = total_calls_tracked s
  ∧ total_resolved s' = total_resolved s
  ∧ first_tracked s' = first_tracked s
  ∧ last_updated s' = last_updated s
  ∧ peak_active_calls s' = peak_active_calls s
  ∧ total_snapshots s' = total_snapshots s.
Proof.
  revert s. induction new_calls as [|c rest IH]; intros s; simpl; [done|].
  specialize (IH (track_call s c)). simpl in IH. exact IH.
Qed.

Lemma track_call_sums (s : stats) (c : call) :
  table_sum (call_types (track_call s c)) = table_sum (call_types s) + 1
  ∧ table_sum (addresses (track_call s c)) = table_sum (addresses s) + 1
  ∧ table_sum (hourly_distribution s)
      ≤ table_sum (hourly_distribution (track_call s c))
      ≤ table_sum (hourly_distribution s) + 1.
Proof.
  unfold track_call; simpl. rewrite !table_sum_tick.
  split; [done|]. split; [done|].
  destruct (parse_response_date _ _); [rewrite table_sum_tick|]; lia.
Qed.

Lemma track_calls_sums (new_calls : list call) (s : stats) :
  let s' := foldl track_call s new_calls in
  table_sum (call_types s') = table_sum (call_types s) + len new_calls
  ∧ table_sum (addresses s') = table_sum (addresses s) + len new_calls
  ∧ table_sum (hourly_distribution s)
      ≤ table_sum (hourly_distribution s')
      ≤ table_sum (hourly_distribution s) + len new_calls.
Proof.
  revert s. induction new_calls as [|c rest IH]; intros s.
  - unfold len; simpl. lia.
  - change (foldl track_call s (c :: rest))
      with (foldl track_call (track_call s c) rest).
    pose proof (IH (track_call s c)) as IH'. cbv zeta in IH'.
    destruct IH' as (IHt & IHa & IHh).
    destruct (track_call_sums s c) as (Ht & Ha & Hh).
    unfold len in *. rewrite length_cons. cbv zeta. lia.
Qed.

Lemma aggregate_scalars (timestamp : string) (new_calls resolved_calls : list call)
    (total_active : Z) (s : stats) :
  let s' := aggregate timestamp new_calls resolved_calls total_active s in
  total_calls_tracked s' = total_calls_tracked s + len new_calls
  ∧ total_resolved s' = total_resolved s + len resolved_calls
  ∧ first_tracked s' =
      match first_tracked s with None => Some timestamp | Some t => Some t end
  ∧ last_updated s' = Some timestamp
  ∧ peak_active_calls s' = Z.max (peak_active_calls s) total_active
  ∧ total_snapshots s' = total_snapshots s + 1.
Proof.
  unfold aggregate.
  match goal with
  | |- context [foldl track_call ?s0 new_calls] =>
      destruct (track_calls_scalars new_calls s0) as (H1 & H2 & H3 & H4 & H5 & H6)
  end.
  simpl in *. rewrite H1, H2, H3, H4, H5, H6.
  repeat split; try done.
  destruct (peak_active_calls s <? total_active) eqn:Hcmp.
  - apply Z.ltb_lt in Hcmp. lia.
  - apply Z.ltb_ge in Hcmp. lia.
Qed.

(** C4: one run of the Stats Aggregator adds the number of new records
    to [total_calls_tracked], the number of resolved records to
    [total_resolved] and one to [total_snapshots]; it sets
    [last_updated] to the current instant, and [first_tracked] to the
    current instant when it was unset and to its former value
    otherwise.  The record returned is the one written to the file. *)
Theorem update_stats_counters (now : string) (new_calls resolved_calls : list call)
    (total_active : Z) (st : store) :
  let before := loaded_stats st in
  let after := fst (update_stats now new_calls resolved_calls total_active st) in
  total_calls_tracked after = total_calls_tracked before + len new_calls
  ∧ total_resolved after = total_resolved before + len resolved_calls
  ∧ total_snapshots after = total_snapshots before + 1
  ∧ last_updated after = Some now
  ∧ first_tracked after =
      match first_tracked before with
      | None => Some now
      | Some earlier => Some earlier
      end
  ∧ stats_file (snd (update_stats now new_calls resolved_calls total_active st))
      = Some after.
Proof.
  intros before after. subst before after. unfold update_stats, loaded_stats.
  simpl.
  destruct (aggregate_scalars now new_calls resolved_calls total_active
              (default default_stats (stats_file st)))
    as (H1 & H2 & H3 & H4 & H5 & H6).
  simpl in *. tauto.
Qed.

Lemma default_stats_consistent : tables_consistent default_stats.
Proof.
  unfold tables_consistent. rewrite table_sum_default_hours. simpl.
  rewrite table_sum_empty. lia.
Qed.

Lemma aggregate_consistent (timestamp : string)
    (new_calls resolved_calls : list call) (total_active : Z) (s : stats) :
  tables_consistent s →
  tables_consistent (aggregate timestamp new_calls resolved_calls total_active s).
Proof.
  intros (Ht & Ha & Hh). unfold tables_consistent.
  destruct (aggregate_scalars timestamp new_calls resolved_calls total_active s)
    as (Htotal & _).
  cbv zeta in Htotal. rewrite Htotal. unfold aggregate.
  match goal with
  | |- context [foldl track_call ?s0 new_calls] =>
      destruct (track_calls_sums new_calls s0) as (St & Sa & Sh)
  end.
  cbv zeta in St, Sa, Sh. simpl in St, Sa, Sh. lia.
Qed.

Lemma loaded_stats_step (st : store) (i : stats_input) :
  loaded_stats (stats_step fromisoformat st i) =
    aggregate (in_timestamp i) (in_new_calls i) (in_resolved_calls i)
              (in_total_active i) (loaded_stats st).
Proof. reflexivity. Qed.

Lemma stats_runs_consistent (inputs : list stats_input) (st : store) :
  tables_consistent (loaded_stats st) →
  tables_consistent (loaded_stats (stats_runs fromisoformat inputs st)).
Proof.
  revert st. induction inputs as [|i rest IH]; intros st Hst; [done|].
  apply IH. rewrite loaded_stats_step. by apply aggregate_consistent.
Qed.

(** C10: started with no stats file, so from the default record, after
    every sequence of Stats Aggregator runs the per-description counts
    and the per-address counts each sum to [total_calls_tracked], and the
    hourly buckets sum to at most [total_calls_tracked]; one new record
    adds one to the description sum, one to the address sum and zero or
    one to the hourly sum. *)
Theorem stats_tables_consistent (inputs : list stats_input) (st : store) :
  let s := loaded_stats (stats_runs fromisoformat inputs (set_stats_file None st)) in
  table_sum (call_types s) = total_calls_tracked s
  ∧ table_sum (addresses s) = total_calls_tracked s
  ∧ table_sum (hourly_distribution s) ≤ total_calls_tracked s
  ∧ ∀ (acc : stats) (c : call),
      table_sum (call_types (track_call acc c)) = table_sum (call_types acc) + 1
      ∧ table_sum (addresses (track_call acc c)) = table_sum (addresses acc) + 1
      ∧ table_sum (hourly_distribution acc)
          ≤ table_sum (hourly_distribution (track_call acc c))
          ≤ table_sum (hourly_distribution acc) + 1.
Proof.
  intros s.
  assert (tables_consistent s) as (Ht & Ha & Hh).
  { apply stats_runs_consistent. apply default_stats_consistent. }
  repeat split; try done; apply track_call_sums.
Qed.

End StatsProperties.

Example stats_runs_sample :
  let s := loaded_stats (stats_runs Iso.parse [input_1; input_2] empty_store) in
  total_calls_tracked s = 3
  ∧ count_of "ARMED ROBBERY" (call_types s) = 1
  ∧ count_of "Unknown" (call_types s) = 1
  ∧ count_of "100 CLEVELAND ST" (addresses s) = 2
  ∧ count_of "14" (hourly_distribution s) = 1
  ∧ table_sum (hourly_distribution s) = 1.
Proof. vm_compute. repeat split. Qed.

(** ** The Fetcher and the main pipeline *)

Lemma fetch_active_calls_raised (e : request_exception) :
  fetch_active_calls (Raised e) = None.
Proof. reflexivity. Qed.

Lemma fetch_active_calls_decoded (data : payload) :
  ∃ calls, fetch_active_calls (Decoded data) = Some calls.
Proof. by eexists. Qed.

Lemma init_log_frame (now : string) (st : store) :
  current_calls_file (init_log now st) = current_calls_file st
  ∧ archive_dir (init_log now st) = archive_dir st
  ∧ stats_file (init_log now st) = stats_file st
  ∧ ci_output (init_log now st) = ci_output st.
Proof. unfold init_log. by destruct (historical_log_file st). Qed.

Lemma init_log_file (now : string) (st : store) :
  historical_log_file (init_log now st) =
    match historical_log_file st with
    | Some text => Some text
    | None => Some (log_banner now)
    end.
Proof. unfold init_log. by destruct (historical_log_file st) eqn:E. Qed.

Lemma main_failed (fromisoformat : string → option datetime)
    (env : run_env) (st : store) :
  fetch_active_calls (exchange env) = None →
  main fromisoformat env st = (1, init_log (started_at env) st).
Proof. intros Hfail. unfold main. by rewrite Hfail. Qed.

(** C1, as the code has it: when the request or the decoding of its body
    raises, the Fetcher returns the failure value and the run exits with
    code 1; the snapshot, the archive, the stats file and the CI output
    are as before the run.  The historical log is as before when it
    existed; when it did not, the run has created it, holding the banner
    only. *)
Theorem main_fetch_failure (fromisoformat : string → option datetime)
    (env : run_env) (st : store) (e : request_exception)
    (Hraised : exchange env = Raised e) :
  let after := snd (main fromisoformat env st) in
  fetch_active_calls (exchange env) = None
  ∧ fst (main fromisoformat env st) = 1
  ∧ current_calls_file after = current_calls_file st
  ∧ archive_dir after = archive_dir st
  ∧ stats_file after = stats_file st
  ∧ ci_output after = ci_output st
  ∧ historical_log_file after =
      match historical_log_file st with
      | Some text => Some text
      | None => Some (log_banner (started_at env))
      end.
Proof.
  intros after. subst after.
  assert (fetch_active_calls (exchange env) = None) as Hfail
    by (rewrite Hraised; apply fetch_active_calls_raised).
  rewrite (main_failed fromisoformat env st Hfail). simpl.
  destruct (init_log_frame (started_at env) st) as (H1 & H2 & H3 & H4).
  rewrite init_log_file. tauto.
Qed.

Lemma main_fetch_failure_witness :
  exchange env_timeout = Raised Timeout
  ∧ fst (main Iso.parse env_timeout empty_store) = 1
  ∧ stats_file (snd (main Iso.parse env_timeout empty_store)) = None.
Proof.
  split; [reflexivity|].
  pose proof (main_fetch_failure Iso.parse env_timeout empty_store Timeout
                eq_refl) as H.
  cbv zeta in H. destruct H as (_ & Hcode & _ & _ & Hstats & _).
  split; [exact Hcode | exact Hstats].
Defined.

(** C1, as stated, fails: on a checkout without a historical log, a run
    whose request times out leaves the log file written. *)
Lemma main_fetch_failure_writes_log :
  fetch_active_calls (exchange env_timeout) = None
  ∧ historical_log_file empty_store = None
  ∧ historical_log_file (snd (main Iso.parse env_timeout empty_store))
      = Some (log_banner "2024-01-15T19:30:00+00:00")
  ∧ ¬ (historical_log_file (snd (main Iso.parse env_timeout empty_store))
         = historical_log_file empty_store).
Proof.
  split; [reflexivity|]. split; [reflexivity|]. split; [reflexivity|].
  intros H. discriminate H.
Qed.

(** ** The Archiver *)

Lemma archive_daily_data_dir (date_str : string) (calls : list call)
    (timestamp : string) (st : store) :
  archive_dir (archive_daily_data date_str calls timestamp st) =
    <[archive_name date_str :=
        mk_archive_data
          (match archive_dir st !! archive_name date_str with
           | Some data => archive_date data
           | None => date_str
           end)
          (match archive_dir st !! archive_name date_str with
           | Some data => archive_snapshots data
           | None => []
           end ++ [mk_archive_entry timestamp (len calls) calls])]>
      (archive_dir st).
Proof.
  unfold archive_daily_data. simpl.
  by destruct (archive_dir st !! archive_name date_str).
Qed.

(** C8: two runs of the Archiver on one local date leave one file for that
    date, whose snapshot sequence is the former one (empty when the file
    did not exist) followed by the two new entries in order, and leave
    every other file as it was; a run on a date that has no file yet
    writes a file holding the new entry alone, and changes no other
    file. *)
Theorem archive_same_day_new_day (st : store) (date_str : string)
    (calls1 : list call) (timestamp1 : string)
    (calls2 : list call) (timestamp2 : string)
    (next_date : string) (calls3 : list call) (timestamp3 : string)
    (Hnew : archive_dir
              (archive_daily_data date_str calls2 timestamp2
                 (archive_daily_data date_str calls1 timestamp1 st))
              !! archive_name next_date = None) :
  let st2 := archive_daily_data date_str calls2 timestamp2
               (archive_daily_data date_str calls1 timestamp1 st) in
  let st3 := archive_daily_data next_date calls3 timestamp3 st2 in
  let earlier :=
    match archive_dir st !! archive_name date_str with
    | Some data => archive_snapshots data
    | None => []
    end in
  (archive_snapshots <$> archive_dir st2 !! archive_name date_str) =
    Some (earlier ++ [mk_archive_entry timestamp1 (len calls1) calls1;
                      mk_archive_entry timestamp2 (len calls2) calls2])
  ∧ dom (archive_dir st2) = {[archive_name date_str]} ∪ dom (archive_dir st)
  ∧ (∀ name, name ≠ archive_name date_str →
             archive_dir st2 !! name = archive_dir st !! name)
  ∧ archive_dir st3 !! archive_name next_date =
      Some (mk_archive_data next_date
              [mk_archive_entry timestamp3 (len calls3) calls3])
  ∧ (∀ name, name ≠ archive_name next_date →
             archive_dir st3 !! name = archive_dir st2 !! name).
Proof.
  intros st2 st3 earlier. subst st3 st2.
  rewrite (archive_daily_data_dir next_date), Hnew.
  rewrite !archive_daily_data_dir. rewrite !lookup_insert_eq. simpl.
  rewrite insert_insert_eq.
  split; [|split; [|split; [|split]]].
  - subst earlier. by rewrite <- app_assoc.
  - by rewrite dom_insert_L.
  - intros name Hne. by rewrite lookup_insert_ne.
  - done.
  - intros name Hne. by rewrite lookup_insert_ne.
Qed.

Lemma archive_same_day_new_day_witness :
  let st2 := archive_daily_data "2024-01-15" [call_stop] "19:45"
               (archive_daily_data "2024-01-15" [call_A1; call_B2] "19:30"
                  empty_store) in
  let st3 := archive_daily_data "2024-01-16" [] "00:05" st2 in
  archive_dir st2 !! archive_name "2024-01-16" = None
  ∧ (archive_snapshots <$> archive_dir st2 !! archive_name "2024-01-15") =
      Some [mk_archive_entry "19:30" 2 [call_A1; call_B2];
            mk_archive_entry "19:45" 1 [call_stop]]
  ∧ archive_dir st3 !! archive_name "2024-01-16" =
      Some (mk_archive_data "2024-01-16" [mk_archive_entry "00:05" 0 []]).
Proof.
  intros st2 st3.
  assert (archive_dir st2 !! archive_name "2024-01-16" = None) as Hnew
    by (vm_compute; reflexivity).
  split; [exact Hnew|].
  pose proof (archive_same_day_new_day empty_store "2024-01-15"
                [call_A1; call_B2] "19:30" [call_stop] "19:45"
                "2024-01-16" [] "00:05" Hnew) as H.
  cbv zeta in H. destruct H as (Hsame & _ & _ & Hnext & _).
  split; [exact Hsame | exact Hnext].
Defined.

(** ** Runs of the pipeline *)

Section PipelineProperties.

Variable fromisoformat : string → option datetime.

(** The stats a run leaves: the Stats Aggregator applied to what the
    Differ reports, or the former stats when the fetch failed. *)
Lemma main_stats (env : run_env) (st : store) :
  loaded_stats (snd (main fromisoformat env st)) =
    match fetch_active_calls (exchange env) with
    | Some current_calls =>
        let previous_calls :=
          snap_calls (load_previous_calls (init_log (started_at env) st)) in
        let diff := compare_calls previous_calls current_calls in
        aggregate fromisoformat (stats_at env) (fst diff) (snd diff)
                  (len current_calls) (loaded_stats st)
    | None => loaded_stats st
    end.
Proof.
  destruct (init_log_frame (started_at env) st) as (_ & _ & Hstats & _).
  unfold main.
  destruct (fetch_active_calls (exchange env)) as [current_calls|].
  - destruct (compare_calls _ current_calls) as [new_calls resolved_calls].
    unfold loaded_stats, update_stats.
    destruct (github_output env); simpl; by rewrite Hstats.
  - unfold loaded_stats. simpl. by rewrite Hstats.
Qed.

Lemma main_peak (env : run_env) (st : store) :
  peak_active_calls (loaded_stats (snd (main fromisoformat env st))) =
    match fetch_active_calls (exchange env) with
    | Some current_calls =>
        Z.max (peak_active_calls (loaded_stats st)) (len current_calls)
    | None => peak_active_calls (loaded_stats st)
    end.
Proof.
  rewrite main_stats.
  destruct (fetch_active_calls (exchange env)) as [current_calls|]; [|done].
  cbv zeta.
  match goal with
  | |- context [aggregate _ ?t ?n ?r ?a ?s] =>
      destruct (aggregate_scalars fromisoformat t n r a s)
        as (_ & _ & _ & _ & Hpeak & _)
  end.
  exact Hpeak.
Qed.

Lemma max_count_nonneg (counts : list Z) : 0 ≤ max_count counts.
Proof. induction counts as [|n rest IH]; simpl; lia. Qed.

Lemma max_count_upper (counts : list Z) (n : Z) :
  n ∈ counts → n ≤ max_count counts.
Proof.
  induction counts as [|m rest IH]; intros Hin; [by apply not_elem_of_nil in Hin|].
  apply elem_of_cons in Hin as [->|Hin]; simpl; [lia|].
  specialize (IH Hin). lia.
Qed.

Lemma max_count_attained (counts : list Z) :
  max_count counts ∈ counts ∨ max_count counts = 0.
Proof.
  induction counts as [|m rest IH]; [by right|]. simpl.
  destruct (Z.max_spec m (max_count rest)) as [[_ ->]|[_ ->]].
  - destruct IH as [IH| ->]; [left; by right | by right].
  - left. by left.
Qed.

Lemma observed_counts_nonneg (envs : list run_env) (n : Z) :
  n ∈ observed_counts envs → 0 ≤ n.
Proof.
  unfold observed_counts. rewrite list_elem_of_omap.
  intros (env & _ & Hn).
  destruct (fetch_active_calls (exchange env)); simplify_eq/=.
  unfold len. lia.
Qed.

Lemma observed_counts_cons (env : run_env) (rest : list run_env) :
  observed_counts (env :: rest) =
    match fetch_active_calls (exchange env) with
    | Some current_calls => len current_calls :: observed_counts rest
    | None => observed_counts rest
    end.
Proof.
  unfold observed_counts. simpl.
  by destruct (fetch_active_calls (exchange env)).
Qed.

Lemma run_all_peak (envs : list run_env) (st : store) :
  0 ≤ peak_active_calls (loaded_stats st) →
  peak_active_calls (loaded_stats (run_all fromisoformat envs st)) =
    Z.max (peak_active_calls (loaded_stats st)) (max_count (observed_counts envs)).
Proof.
  revert st. induction envs as [|env rest IH]; intros st Hst.
  - simpl. lia.
  - change (run_all fromisoformat (env :: rest) st)
      with (run_all fromisoformat rest (snd (main fromisoformat env st))).
    pose proof (main_peak env st) as Hstep.
    rewrite observed_counts_cons.
    destruct (fetch_active_calls (exchange env)) as [current_calls|].
    + rewrite IH by lia. rewrite Hstep. simpl. lia.
    + rewrite IH by lia. rewrite Hstep. lia.
Qed.

Lemma run_all_app (envs more : list run_env) (st : store) :
  run_all fromisoformat (envs ++ more) st =
    run_all fromisoformat more (run_all fromisoformat envs st).
Proof. unfold run_all. apply foldl_app. Qed.

(** C3: started with no stats file, after every sequence of poll cycles
    [peak_active_calls] is the maximum of the active-call counts of the
    cycles that fetched (zero when there was none): it bounds each of
    them and is one of them; and further cycles do not lower it. *)
Theorem peak_is_maximum (envs : list run_env) (st : store) :
  let counts := observed_counts envs in
  let start := set_stats_file None st in
  let peak := peak_active_calls (loaded_stats (run_all fromisoformat envs start)) in
  peak = max_count counts
  ∧ (∀ n, n ∈ counts → n ≤ peak)
  ∧ (peak ∈ counts ∨ (counts = [] ∧ peak = 0))
  ∧ (∀ more,
       peak ≤ peak_active_calls
                (loaded_stats (run_all fromisoformat (envs ++ more) start))).
Proof.
  intros counts start peak.
  assert (peak = max_count counts) as Hpeak.
  { subst peak. rewrite run_all_peak by (simpl; lia).
    simpl. pose proof (max_count_nonneg counts). subst counts. lia. }
  split; [exact Hpeak|]. split; [|split].
  - intros n Hn. rewrite Hpeak. by apply max_count_upper.
  - rewrite Hpeak. destruct (max_count_attained counts) as [Hin|Hzero];
      [by left|].
    destruct counts as [|n rest] eqn:Hcounts; [by right|].
    left. rewrite Hzero.
    assert (n ∈ observed_counts envs) as Hn by (fold counts; rewrite Hcounts; left).
    assert (0 ≤ max_count (n :: rest)) as Hle by apply max_count_nonneg.
    assert (∀ m, m ∈ n :: rest → m = 0) as Hall.
    { intros m Hm. pose proof (max_count_upper (n :: rest) m Hm).
      assert (0 ≤ m); [|lia].
      apply (observed_counts_nonneg envs). fold counts. by rewrite Hcounts. }
    rewrite <- (Hall n) at 1 by left. left.
  - intros more. rewrite run_all_app.
    rewrite (run_all_peak more).
    + fold peak. lia.
    + fold peak. rewrite Hpeak. apply max_count_nonneg.
Qed.

(** ** Records whose timestamp does not parse *)

Lemma main_succeeds (env : run_env) (st : store) (current_calls : list call) :
  fetch_active_calls (exchange env) = Some current_calls →
  fst (main fromisoformat env st) = 0.
Proof.
  intros Hfetch. unfold main. rewrite Hfetch.
  destruct (compare_calls _ current_calls) as [new_calls resolved_calls].
  reflexivity.
Qed.

Lemma track_calls_hourly_ext (calls : list call) (s s' : stats) :
  hourly_distribution s = hourly_distribution s' →
  hourly_distribution (foldl (track_call fromisoformat) s calls) =
    hourly_distribution (foldl (track_call fromisoformat) s' calls).
Proof.
  revert s s'. induction calls as [|c rest IH]; intros s s' Heq; [done|].
  simpl. apply IH. simpl. by rewrite Heq.
Qed.

Lemma track_calls_count_types (key : string) (calls : list call) (s : stats) :
  count_of key (call_types (foldl (track_call fromisoformat) s calls)) =
    count_of key (call_types s)
    + len (filter (λ c, get_default c "Online_Description" "Unknown" = key) calls).
Proof.
  revert s. induction calls as [|c rest IH]; intros s.
  - unfold len. simpl. lia.
  - simpl foldl. rewrite IH. simpl call_types. rewrite count_of_tick.
    rewrite filter_cons. unfold len.
    destruct (decide (get_default c "Online_Description" "Unknown" = key));
      [rewrite length_cons|]; lia.
Qed.

Lemma track_calls_count_addresses (key : string) (calls : list call) (s : stats) :
  count_of key (addresses (foldl (track_call fromisoformat) s calls)) =
    count_of key (addresses s)
    + len (filter (λ c, get_default c "Address" "Unknown" = key) calls).
Proof.
  revert s. induction calls as [|c rest IH]; intros s.
  - unfold len. simpl. lia.
  - simpl foldl. rewrite IH. simpl addresses. rewrite count_of_tick.
    rewrite filter_cons. unfold len.
    destruct (decide (get_default c "Address" "Unknown" = key));
      [rewrite length_cons|]; lia.
Qed.

Lemma len_filter_insert {A} (P : A → Prop) `{!∀ x, Decision (P x)}
    (before after : list A) (x : A) :
  P x → len (filter P (before ++ x :: after)) = len (filter P (before ++ after)) + 1.
Proof.
  intros Hx. unfold len.
  rewrite !filter_app, filter_cons_True by done.
  rewrite !length_app, length_cons. lia.
Qed.

(** C5: a record whose response time does not parse is written to the log
    with the time ["Unknown Time"]; it leaves the hourly histogram as it
    would be without the record, and adds one to the count of its
    description and one to the count of its address; a run that fetched
    exits with code 0 whatever the records hold. *)
Theorem unparsable_time_degrades (c : call)
    (Hbad : parse_response_date fromisoformat
              (get_default c "Response_Date" EmptyString) = None) :
  let call_type := get_default c "Online_Description" "Unknown" in
  let address := get_default c "Address" "Unknown" in
  (∀ status,
     format_call_for_log fromisoformat c status =
       "[" +:+ status +:+ "] "
       +:+ get_default c "Master_Incident_Number" "UNKNOWN" +:+ " | "
       +:+ get_default c "Online_Description" "Unknown Call Type" +:+ " | "
       +:+ get_default c "Address" "Unknown Location"
       +:+ " | Response: Unknown Time")
  ∧ (∀ s,
       hourly_distribution (track_call fromisoformat s c) = hourly_distribution s
       ∧ count_of call_type (call_types (track_call fromisoformat s c))
           = count_of call_type (call_types s) + 1
       ∧ count_of address (addresses (track_call fromisoformat s c))
           = count_of address (addresses s) + 1)
  ∧ (∀ now before after resolved_calls total_active s,
       let with_c :=
         aggregate fromisoformat now (before ++ c :: after) resolved_calls
                   total_active s in
       let without :=
         aggregate fromisoformat now (before ++ after) resolved_calls
                   total_active s in
       hourly_distribution with_c = hourly_distribution without
       ∧ count_of call_type (call_types with_c)
           = count_of call_type (call_types without) + 1
       ∧ count_of address (addresses with_c)
           = count_of address (addresses without) + 1)
  ∧ (∀ data started fetched date stamped ci st,
       fst (main fromisoformat
              (mk_run_env (Decoded data) started fetched date stamped ci) st) = 0).
Proof.
  intros call_type address.
  assert (∀ s, hourly_distribution (track_call fromisoformat s c)
               = hourly_distribution s) as Hhour.
  { intros s. unfold track_call. simpl. by rewrite Hbad. }
  split; [|split; [|split]].
  - intros status. unfold format_call_for_log. by rewrite Hbad.
  - intros s. split; [apply Hhour|].
    unfold track_call. simpl. rewrite !count_of_tick.
    subst call_type address. by rewrite !decide_True by done.
  - intros now before after resolved_calls total_active s with_c without.
    subst with_c without. unfold aggregate.
    split; [|split].
    + rewrite !foldl_app. simpl foldl.
      etrans; [apply track_calls_hourly_ext, Hhour|].
      rewrite <- !foldl_app. by apply track_calls_hourly_ext.
    + rewrite !track_calls_count_types. simpl call_types.
      rewrite len_filter_insert by done. lia.
    + rewrite !track_calls_count_addresses. simpl addresses.
      rewrite len_filter_insert by done. lia.
  - intros data started fetched date stamped ci st.
    destruct (fetch_active_calls_decoded data) as [calls Hcalls].
    by apply (main_succeeds _ _ calls).
Qed.

End PipelineProperties.

Lemma unparsable_time_degrades_witness :
  parse_response_date Iso.parse
    (get_default call_bad_date "Response_Date" EmptyString) = None
  ∧ format_call_for_log Iso.parse call_bad_date "NEW" =
      "[NEW] D4 | ARMED ROBBERY | 100 CLEVELAND ST | Response: Unknown Time"
  ∧ hourly_distribution (track_call Iso.parse default_stats call_bad_date)
      = hourly_distribution default_stats.
Proof.
  assert (parse_response_date Iso.parse
            (get_default call_bad_date "Response_Date" EmptyString) = None)
    as Hbad by (vm_compute; reflexivity).
  split; [exact Hbad|].
  pose proof (unparsable_time_degrades Iso.parse call_bad_date Hbad) as H.
  cbv zeta in H. destruct H as (Hlog & Hone & _).
  split.
  - rewrite (Hlog "NEW"). vm_compute. reflexivity.
  - apply (Hone default_stats).
Defined.

Example format_call_for_log_parsed :
  format_call_for_log Iso.parse call_stop "NEW" =
    "[NEW] C3 | Traffic Stop | 100 CLEVELAND ST | Response: 02:30 PM".
Proof. vm_compute. reflexivity. Qed.

(** ** The Alert Evaluator *)

Lemma first_match_Some {A} (test : A → bool) (xs : list A) (x : A) :
  Alerts.first_match test xs = Some x ↔
  ∃ before after, xs = before ++ x :: after ∧ test x = true
                  ∧ ∀ y, y ∈ before → test y = false.
Proof.
  induction xs as [|z rest IH]; simpl.
  - split; [done|]. intros (before & after & Heq & _). by destruct before.
  - destruct (test z) eqn:Hz.
    + split.
      * intros [= ->]. exists [], rest. split; [done|]. split; [done|].
        intros y Hy. by apply not_elem_of_nil in Hy.
      * intros (before & after & Heq & Hx & Hbefore).
        destruct before as [|b before]; simplify_eq/=; [done|].
        rewrite Hbefore in Hz by left. done.
    + rewrite IH. split.
      * intros (before & after & -> & Hx & Hbefore).
        exists (z :: before), after. split; [done|]. split; [done|].
        intros y [->|Hy]%elem_of_cons; auto.
      * intros (before & after & Heq & Hx & Hbefore).
        destruct before as [|b before]; simplify_eq/=; [congruence|].
        exists before, after. split; [done|]. split; [done|].
        intros y Hy. apply Hbefore. by right.
Qed.

Lemma first_match_None {A} (test : A → bool) (xs : list A) :
  Alerts.first_match test xs = None ↔ ∀ y, y ∈ xs → test y = false.
Proof.
  induction xs as [|z rest IH]; simpl.
  - split; [|done]. intros _ y Hy. by apply not_elem_of_nil in Hy.
  - destruct (test z) eqn:Hz.
    + split; [done|]. intros H. rewrite H in Hz by left. done.
    + rewrite IH. split.
      * intros H y [->|Hy]%elem_of_cons; auto.
      * intros H y Hy. apply H. by right.
Qed.

(** The watched call types are written in upper case. *)
Lemma ALERT_CALL_TYPES_upper (watched : string) :
  watched ∈ Alerts.ALERT_CALL_TYPES → PyStr.upper watched = watched.
Proof.
  unfold Alerts.ALERT_CALL_TYPES. rewrite !elem_of_cons.
  intros [->|[->|[->|[->|H]]]]; try reflexivity.
  by apply not_elem_of_nil in H.
Qed.

(** The test of the loop over the watched call types is containment with
    case ignored. *)
Lemma type_test_contains_ci (watched description : string) :
  watched ∈ Alerts.ALERT_CALL_TYPES →
  PyStr.contains watched (PyStr.upper description) = true
  ↔ PyStr.contains_ci watched description.
Proof.
  intros Hin. unfold PyStr.contains_ci.
  rewrite (ALERT_CALL_TYPES_upper watched Hin). apply contains_spec.
Qed.

(** With the four watched call types the source ships, all written in
    upper case: the type rule fires exactly when the description
    contains one of them with the case of the ASCII letters ignored; the
    loop stops at the first of them, in list order, that the description
    contains; the rule yields no alert or one, and with the shipped
    configuration it is all a record contributes. *)
Lemma type_rule_first_match (c : call) :
  let description := get_default c "Online_Description" EmptyString in
  let fired := Alerts.type_rule Alerts.ALERT_CALL_TYPES c in
  let stopped_at :=
    Alerts.first_match
      (λ alert_type, PyStr.contains alert_type (PyStr.upper description))
      Alerts.ALERT_CALL_TYPES in
  (fired ≠ [] ↔
     ∃ watched, watched ∈ Alerts.ALERT_CALL_TYPES
                ∧ PyStr.contains_ci watched description)
  ∧ (∀ watched,
       stopped_at = Some watched ↔
       ∃ before after,
         Alerts.ALERT_CALL_TYPES = before ++ watched :: after
         ∧ PyStr.contains_ci watched description
         ∧ ∀ earlier, earlier ∈ before → ¬ PyStr.contains_ci earlier description)
  ∧ fired =
      match stopped_at with
      | Some _ =>
          [Alerts.type_alert (PyStr.upper description)
             (get_default c "Address" EmptyString)
             (get_default c "Master_Incident_Number" EmptyString)]
      | None => []
      end
  ∧ (length fired ≤ 1)%nat
  ∧ Alerts.record_alerts Alerts.ALERT_CALL_TYPES Alerts.ALERT_ADDRESSES c = fired.
Proof.
  intros description fired stopped_at.
  assert (∀ watched,
            stopped_at = Some watched ↔
            ∃ before after,
              Alerts.ALERT_CALL_TYPES = before ++ watched :: after
              ∧ PyStr.contains_ci watched description
              ∧ ∀ earlier, earlier ∈ before →
                           ¬ PyStr.contains_ci earlier description) as Hstop.
  { intros watched. subst stopped_at. rewrite first_match_Some.
    split; intros (before & after & Heq & Hw & Hbefore);
      exists before, after; (split; [done|]).
    - split.
      + apply type_test_contains_ci; [|done]. rewrite Heq.
        apply elem_of_app. right. left.
      + intros earlier Hin Hci.
        apply type_test_contains_ci in Hci.
        * rewrite Hbefore in Hci by done. done.
        * rewrite Heq. apply elem_of_app. by left.
    - split.
      + apply type_test_contains_ci; [|done]. rewrite Heq.
        apply elem_of_app. right. left.
      + intros y Hy.
        destruct (PyStr.contains y (PyStr.upper description)) eqn:Hc; [|done].
        exfalso. apply (Hbefore y Hy).
        apply type_test_contains_ci; [|done]. rewrite Heq.
        apply elem_of_app. by left. }
  assert (fired =
            match stopped_at with
            | Some _ =>
                [Alerts.type_alert (PyStr.upper description)
                   (get_default c "Address" EmptyString)
                   (get_default c "Master_Incident_Number" EmptyString)]
            | None => []
            end) as Hfired by reflexivity.
  assert (stopped_at = None →
          ∀ y, y ∈ Alerts.ALERT_CALL_TYPES →
               PyStr.contains y (PyStr.upper description) = false) as Hnone.
  { subst stopped_at. by rewrite first_match_None. }
  split; [|split; [exact Hstop|split; [exact Hfired|split]]].
  - rewrite Hfired. clearbody stopped_at. destruct stopped_at as [w|].
    + split; [|done]. intros _.
      destruct (proj1 (Hstop w) eq_refl) as (before & after & Heq & Hci & _).
      exists w. split; [|done]. rewrite Heq. apply elem_of_app. right. left.
    + split; [done|]. intros (watched & Hin & Hci). exfalso.
      apply type_test_contains_ci in Hci; [|done].
      rewrite (Hnone eq_refl watched Hin) in Hci. done.
  - rewrite Hfired. destruct stopped_at; simpl; lia.
  - unfold Alerts.record_alerts, Alerts.address_rule. simpl.
    by rewrite app_nil_r.
Qed.

Example type_rule_lower_case_description :
  Alerts.type_rule Alerts.ALERT_CALL_TYPES call_lower =
    [Alerts.type_alert "SUSPICIOUS PERSON - TRAFFIC STOP" "1 MAIN ST" "E5"]
  ∧ Alerts.type_rule Alerts.ALERT_CALL_TYPES call_bad_date = [].
Proof. vm_compute. split; reflexivity. Qed.

Lemma foldl_append {A B} (f : B → list A) (init : list A) (xs : list B) :
  foldl (λ acc x, acc ++ f x) init xs = init ++ (xs ≫= f).
Proof.
  revert init. induction xs as [|x rest IH]; intros init.
  - simpl. by rewrite app_nil_r.
  - simpl foldl. rewrite IH, bind_cons. by rewrite app_assoc.
Qed.

(** The alerts in evaluation order: the volume alert, then the alerts of
    each record in record order. *)
Lemma check_alerts_order (current_calls new_calls : list call) :
  Alerts.check_alerts current_calls new_calls =
    Alerts.volume_rule Alerts.HIGH_VOLUME_THRESHOLD current_calls
    ++ (new_calls ≫=
          Alerts.record_alerts Alerts.ALERT_CALL_TYPES Alerts.ALERT_ADDRESSES).
Proof. unfold Alerts.check_alerts, Alerts.check_alerts_with. apply foldl_append. Qed.

Lemma delivered_cons (o : Alerts.send_outcome) (rest : list Alerts.send_outcome) :
  Alerts.delivered (o :: rest) =
    match o with
    | Alerts.Sent body => body :: Alerts.delivered rest
    | _ => Alerts.delivered rest
    end.
Proof. by destruct o. Qed.

Lemma delivered_sublist (webhook : option string)
    (accepted : Alerts.embed → bool) (alerts : list Alerts.alert) :
  Alerts.delivered (Alerts.send_discord_alert webhook accepted <$> alerts)
    `sublist_of` (Alerts.body_of <$> alerts).
Proof.
  induction alerts as [|a rest IH]; [done|].
  rewrite !fmap_cons, delivered_cons.
  unfold Alerts.send_discord_alert at 1.
  destruct webhook as [[|ch url]|].
  - by apply sublist_cons.
  - destruct (accepted (Alerts.body_of a)).
    + by apply sublist_skip.
    + by apply sublist_cons.
  - by apply sublist_cons.
Qed.

Lemma delivered_all (ch : ascii) (url : string) (alerts : list Alerts.alert) :
  Alerts.delivered
    (Alerts.send_discord_alert (Some (String ch url)) (λ _, true) <$> alerts)
  = Alerts.body_of <$> alerts.
Proof.
  induction alerts as [|a rest IH]; [done|].
  rewrite !fmap_cons, delivered_cons. simpl. by rewrite IH.
Qed.

(** C7: one invocation calls the sender on the first five alerts, in
    evaluation order, and on no other; the alerts are the volume alert,
    present once exactly when the number of active calls is at least the
    threshold of 10, followed by the alerts of the records in record
    order.  So at most five notifications are delivered, in that order,
    and exactly the first five when the webhook is set and accepts every
    POST.  The run writes nothing: what is beyond the cap is dropped. *)
Theorem alerts_capped (webhook : option string)
    (accepted : Alerts.embed → bool) (st : store) :
  let outcomes := Alerts.main webhook accepted st in
  let alerts :=
    match current_calls_file st with
    | Some data => Alerts.check_alerts (snap_calls data) (snap_calls data)
    | None => []
    end in
  outcomes = (Alerts.send_discord_alert webhook accepted <$> take 5 alerts)
  ∧ (length outcomes ≤ 5)%nat
  ∧ Alerts.delivered outcomes `sublist_of` (Alerts.body_of <$> take 5 alerts)
  ∧ (length (Alerts.delivered outcomes) ≤ 5)%nat
  ∧ (∀ ch url,
       Alerts.delivered (Alerts.main (Some (String ch url)) (λ _, true) st)
       = Alerts.body_of <$> take 5 alerts)
  ∧ (∀ current_calls new_calls,
       Alerts.check_alerts current_calls new_calls =
         (if decide (10 ≤ len current_calls)
          then [Alerts.volume_alert current_calls] else [])
         ++ (new_calls ≫=
               Alerts.record_alerts Alerts.ALERT_CALL_TYPES
                                    Alerts.ALERT_ADDRESSES)).
Proof.
  intros outcomes alerts.
  assert (∀ w acc,
            Alerts.main w acc st =
              (Alerts.send_discord_alert w acc <$> take 5 alerts)) as Hmain.
  { intros w acc. subst alerts. unfold Alerts.main.
    by destruct (current_calls_file st). }
  assert (length (take 5 alerts) ≤ 5)%nat as Hcap
    by (rewrite length_take; lia).
  subst outcomes. rewrite Hmain.
  pose proof (delivered_sublist webhook accepted (take 5 alerts)) as Hsub.
  split; [done|]. split; [by rewrite length_fmap|]. split; [exact Hsub|].
  split; [|split].
  - apply sublist_length in Hsub. rewrite length_fmap in Hsub. lia.
  - intros ch url. rewrite Hmain. apply delivered_all.
  - intros current_calls new_calls. rewrite check_alerts_order.
    f_equal. unfold Alerts.volume_rule, Alerts.HIGH_VOLUME_THRESHOLD.
    destruct (decide (10 ≤ len current_calls)) as [Hge|Hlt].
    + by apply Z.leb_le in Hge as ->.
    + by apply Z.leb_nle in Hlt as ->.
Qed.

Example alerts_main_twelve_calls :
  let outcomes :=
    Alerts.main (Some "https://discord.example/hook") (λ _, true)
                (store_with twelve_calls) in
  length (Alerts.check_alerts twelve_calls twelve_calls) = 12%nat
  ∧ length outcomes = 5%nat
  ∧ (Alerts.embed_title <$> Alerts.delivered outcomes) =
      ["🚨 High Activity: 12 Active Calls"; "📍 TRAFFIC STOP";
       "📍 SUSPICIOUS PERSON - TRAFFIC STOP"; "📍 TRAFFIC STOP";
       "📍 TRAFFIC STOP"].
Proof. vm_compute. repeat split. Qed.

Example alerts_main_no_webhook :
  Alerts.delivered (Alerts.main None (λ _, true) (store_with twelve_calls)) = []
  ∧ Alerts.main (Some "https://discord.example/hook") (λ _, true) empty_store = [].
Proof. vm_compute. split; reflexivity. Qed.

(** C6, on the code: the type loop tests the watched entry as it is
    written against the description in upper case, so with the watched
    list customised to ["traffic stop"] a record described "Traffic Stop"
    raises no type alert, although its description contains the entry
    with case ignored; the same entry written in upper case fires, and
    the address loop, which puts its entry in upper case before the test,
    fires on a lower-case entry. *)
Theorem type_rule_misses_lower_case_entry :
  get_default call_stop "Online_Description" EmptyString = "Traffic Stop"
  ∧ PyStr.contains_ci "traffic stop" "Traffic Stop"
  ∧ Alerts.type_rule ["traffic stop"] call_stop = []
  ∧ Alerts.check_alerts_with Alerts.HIGH_VOLUME_THRESHOLD ["traffic stop"]
                             Alerts.ALERT_ADDRESSES [call_stop] [call_stop] = []
  ∧ Alerts.type_rule ["TRAFFIC STOP"] call_stop =
      [Alerts.type_alert "TRAFFIC STOP" "100 CLEVELAND ST" "C3"]
  ∧ Alerts.address_rule ["cleveland st"] call_stop =
      [Alerts.address_alert "TRAFFIC STOP" "100 CLEVELAND ST" "C3"].
Proof.
  split; [vm_compute; reflexivity|]. split.
  - exists EmptyString, EmptyString. vm_compute. reflexivity.
  - vm_compute. repeat split.
Qed.

(** The two per-record loops differ: the address loop puts the watched
    entry in upper case before the test, the type loop does not, so a
    watched call type written in lower case matches nothing. *)
Example watched_entry_case :
  Alerts.type_rule ["traffic stop"] call_stop = []
  ∧ Alerts.type_rule ["TRAFFIC STOP"] call_stop =
      [Alerts.type_alert "TRAFFIC STOP" "100 CLEVELAND ST" "C3"]
  ∧ Alerts.address_rule ["cleveland st"] call_stop =
      [Alerts.address_alert "TRAFFIC STOP" "100 CLEVELAND ST" "C3"].
Proof. vm_compute. repeat split. Qed.

Example only_address_rule_fires :
  Alerts.check_alerts_with 10 ["TRAFFIC STOP"] ["CLEVELAND ST"]
                           [call_bad_date] [call_bad_date] =
    [Alerts.address_alert "ARMED ROBBERY" "100 CLEVELAND ST" "D4"].
Proof. vm_compute. reflexivity. Qed.

(** * Further properties *)

(** ** The Differ: disjointness, equal identifier sets, empty inputs *)

(** X1: no record reported new shares its identifier with a record
    reported resolved; in particular no record is reported as both. *)
Theorem compare_calls_disjoint (previous_calls current_calls : list call) :
  let new_calls := fst (compare_calls previous_calls current_calls) in
  let resolved_calls := snd (compare_calls previous_calls current_calls) in
  (∀ n r, n ∈ new_calls → r ∈ resolved_calls → incident_id n ≠ incident_id r)
  ∧ (∀ c, ¬ (c ∈ new_calls ∧ c ∈ resolved_calls)).
Proof.
  intros new_calls resolved_calls. subst new_calls resolved_calls.
  rewrite compare_calls_filter. simpl.
  assert (∀ n r,
            n ∈ filter (λ c, incident_id c ∉ (incident_id <$> previous_calls))
                       current_calls →
            r ∈ filter (λ c, incident_id c ∉ (incident_id <$> current_calls))
                       previous_calls →
            incident_id n ≠ incident_id r) as Hids.
  { intros n r [Hn _]%list_elem_of_filter [_ Hr]%list_elem_of_filter Heq.
    apply Hn. rewrite Heq. apply list_elem_of_fmap. by exists r. }
  split; [exact Hids|].
  intros c [Hnew Hres]. by apply (Hids c c Hnew Hres).
Qed.

Lemma filter_none {A} (P : A → Prop) `{!∀ x, Decision (P x)} (l : list A) :
  (∀ x, x ∈ l → ¬ P x) → filter P l = [].
Proof.
  induction l as [|a l IH]; intros Hall; [done|].
  rewrite filter_cons_False by (apply Hall; left).
  apply IH. intros x Hx. apply Hall. by right.
Qed.

Lemma filter_all {A} (P : A → Prop) `{!∀ x, Decision (P x)} (l : list A) :
  (∀ x, x ∈ l → P x) → filter P l = l.
Proof.
  induction l as [|a l IH]; intros Hall; [done|].
  rewrite filter_cons_True by (apply Hall; left).
  f_equal. apply IH. intros x Hx. apply Hall. by right.
Qed.

(** X2: when the previous and the current records carry the same set of
    identifiers, nothing is reported, whatever the other fields hold and
    whatever the order and the repetitions. *)
Theorem compare_calls_same_ids (previous_calls current_calls : list call)
    (Hsame : ∀ i, i ∈ (incident_id <$> previous_calls)
                  ↔ i ∈ (incident_id <$> current_calls)) :
  compare_calls previous_calls current_calls = ([], []).
Proof.
  rewrite compare_calls_filter. f_equal.
  - apply filter_none. intros c Hc Hn. apply Hn, Hsame.
    apply list_elem_of_fmap. by exists c.
  - apply filter_none. intros c Hc Hn. apply Hn, Hsame.
    apply list_elem_of_fmap. by exists c.
Qed.

Lemma compare_calls_same_ids_witness :
  compare_calls [call_A1; call_B2; call_A1]
                [<["Address" := "9 COURT ST"]> call_B2; call_A1] = ([], []).
Proof.
  apply compare_calls_same_ids. intros i.
  change (incident_id <$> [call_A1; call_B2; call_A1])
    with [Some "A1"; Some "B2"; Some "A1"].
  change (incident_id <$> [<["Address" := "9 COURT ST"]> call_B2; call_A1])
    with [Some "B2"; Some "A1"].
  rewrite !elem_of_cons, !elem_of_nil. tauto.
Defined.

Lemma compare_calls_nil_l (calls : list call) :
  compare_calls [] calls = (calls, []).
Proof.
  rewrite compare_calls_filter. simpl. f_equal.
  apply filter_all. intros c _ Hin. by apply not_elem_of_nil in Hin.
Qed.

Lemma compare_calls_nil_r (calls : list call) :
  compare_calls calls [] = ([], calls).
Proof.
  rewrite compare_calls_filter. simpl. f_equal.
  apply filter_all. intros c _ Hin. by apply not_elem_of_nil in Hin.
Qed.

Lemma compare_calls_self (calls : list call) :
  compare_calls calls calls = ([], []).
Proof.
  rewrite compare_calls_filter.
  f_equal; apply filter_none; intros c Hc Hn; apply Hn;
    apply list_elem_of_fmap; by exists c.
Qed.

(** X3: against an empty previous snapshot every current record is new,
    in order, and nothing is resolved; against an empty current list
    every previous record is resolved and nothing is new. *)
Theorem compare_calls_empty (calls : list call) :
  compare_calls [] calls = (calls, [])
  ∧ compare_calls calls [] = ([], calls).
Proof. split; [apply compare_calls_nil_l | apply compare_calls_nil_r]. Qed.

(** ** The Stats Aggregator: tallies, monotonicity, totals over runs *)

Section StatsFurther.

Variable fromisoformat : string → option datetime.

Lemma track_calls_count_hours (key : string) (calls : list call) (s : stats) :
  count_of key (hourly_distribution (foldl (track_call fromisoformat) s calls)) =
    count_of key (hourly_distribution s)
    + len (filter (λ c, hour_key fromisoformat c = Some key) calls).
Proof.
  revert s. induction calls as [|c rest IH]; intros s.
  - unfold len. simpl. lia.
  - simpl foldl. rewrite IH. simpl hourly_distribution.
    rewrite filter_cons. unfold len.
    assert (hour_key fromisoformat c =
              (λ dt, pretty (dt_hour dt)) <$>
                parse_response_date fromisoformat
                  (get_default c "Response_Date" EmptyString)) as Hkey
      by reflexivity.
    destruct (parse_response_date fromisoformat
                (get_default c "Response_Date" EmptyString)) as [dt|].
    + rewrite count_of_tick.
      destruct (decide (hour_key fromisoformat c = Some key)) as [Heq|Hne].
      * rewrite Hkey in Heq. injection Heq as Heq.
        rewrite decide_True by done. rewrite length_cons. lia.
      * rewrite decide_False; [lia|]. intros Heq. apply Hne.
        rewrite Hkey. simpl. by rewrite Heq.
    + destruct (decide (hour_key fromisoformat c = Some key)) as [Heq|Hne];
        [by rewrite Hkey in Heq | lia].
Qed.

Lemma aggregate_tallies (timestamp : string) (new_calls resolved_calls : list call)
    (total_active : Z) (s : stats) (key : string) :
  let s' :=
    aggregate fromisoformat timestamp new_calls resolved_calls total_active s in
  count_of key (call_types s') =
    count_of key (call_types s)
    + len (filter (λ c, get_default c "Online_Description" "Unknown" = key)
                  new_calls)
  ∧ count_of key (addresses s') =
      count_of key (addresses s)
      + len (filter (λ c, get_default c "Address" "Unknown" = key) new_calls)
  ∧ count_of key (hourly_distribution s') =
      count_of key (hourly_distribution s)
      + len (filter (λ c, hour_key fromisoformat c = Some key) new_calls).
Proof.
  unfold aggregate.
  rewrite track_calls_count_types, track_calls_count_addresses,
    track_calls_count_hours.
  done.
Qed.

(** X4: after one run, the count of every key in each frequency table is
    its former count plus the number of new records that fall under the
    key: by description and by address with a record lacking the field
    counted under ["Unknown"], by hour for the records whose response
    time parses. *)
Theorem update_stats_tallies (now : string) (new_calls resolved_calls : list call)
    (total_active : Z) (st : store) (key : string) :
  let before := loaded_stats st in
  let after :=
    fst (update_stats fromisoformat now new_calls resolved_calls total_active st) in
  count_of key (call_types after) =
    count_of key (call_types before)
    + len (filter (λ c, get_default c "Online_Description" "Unknown" = key)
                  new_calls)
  ∧ count_of key (addresses after) =
      count_of key (addresses before)
      + len (filter (λ c, get_default c "Address" "Unknown" = key) new_calls)
  ∧ count_of key (hourly_distribution after) =
      count_of key (hourly_distribution before)
      + len (filter (λ c, hour_key fromisoformat c = Some key) new_calls).
Proof.
  intros before after.
  apply (aggregate_tallies now new_calls resolved_calls total_active before key).
Qed.

Lemma len_nonneg {A} (l : list A) : 0 ≤ len l.
Proof. unfold len. lia. Qed.

Lemma tick_dom (key : string) (table : gmap string Z) :
  dom (tick key table) = {[key]} ∪ dom table.
Proof. unfold tick. apply dom_insert_L. Qed.

Lemma track_calls_dom (calls : list call) (s : stats) :
  let s' := foldl (track_call fromisoformat) s calls in
  dom (call_types s) ⊆ dom (call_types s')
  ∧ dom (addresses s) ⊆ dom (addresses s')
  ∧ dom (hourly_distribution s) ⊆ dom (hourly_distribution s').
Proof.
  revert s. induction calls as [|c rest IH]; intros s; [done|].
  simpl foldl. cbv zeta.
  destruct (IH (track_call fromisoformat s c)) as (Ht & Ha & Hh).
  split; [|split]; (etrans; [|eassumption]); simpl.
  - rewrite tick_dom. apply union_subseteq_r.
  - rewrite tick_dom. apply union_subseteq_r.
  - destruct (parse_response_date _ _); [|done].
    rewrite tick_dom. apply union_subseteq_r.
Qed.

(** X5: one run lowers nothing: the three totals and the peak do not
    decrease ([total_snapshots] grows), no count of any key in any table
    decreases, and no key leaves a table. *)
Theorem update_stats_monotone (now : string) (new_calls resolved_calls : list call)
    (total_active : Z) (st : store) :
  let before := loaded_stats st in
  let after :=
    fst (update_stats fromisoformat now new_calls resolved_calls total_active st) in
  total_calls_tracked before ≤ total_calls_tracked after
  ∧ total_resolved before ≤ total_resolved after
  ∧ total_snapshots before < total_snapshots after
  ∧ peak_active_calls before ≤ peak_active_calls after
  ∧ (∀ key, count_of key (call_types before) ≤ count_of key (call_types after)
            ∧ count_of key (addresses before) ≤ count_of key (addresses after)
            ∧ count_of key (hourly_distribution before)
                ≤ count_of key (hourly_distribution after))
  ∧ dom (call_types before) ⊆ dom (call_types after)
  ∧ dom (addresses before) ⊆ dom (addresses after)
  ∧ dom (hourly_distribution before) ⊆ dom (hourly_distribution after).
Proof.
  intros before after.
  destruct (aggregate_scalars fromisoformat now new_calls resolved_calls
              total_active before) as (H1 & H2 & _ & _ & H5 & H6).
  cbv zeta in H1, H2, H5, H6.
  change (aggregate fromisoformat now new_calls resolved_calls total_active before)
    with after in H1, H2, H5, H6.
  pose proof (len_nonneg new_calls). pose proof (len_nonneg resolved_calls).
  split; [lia|]. split; [lia|]. split; [lia|]. split; [lia|]. split.
  - intros key.
    destruct (aggregate_tallies now new_calls resolved_calls total_active
                before key) as (Ht & Ha & Hh).
    cbv zeta in Ht, Ha, Hh.
    change (aggregate fromisoformat now new_calls resolved_calls total_active
                      before) with after in Ht, Ha, Hh.
    rewrite Ht, Ha, Hh.
    pose proof (len_nonneg
      (filter (λ c, get_default c "Online_Description" "Unknown" = key) new_calls)).
    pose proof (len_nonneg
      (filter (λ c, get_default c "Address" "Unknown" = key) new_calls)).
    pose proof (len_nonneg
      (filter (λ c, hour_key fromisoformat c = Some key) new_calls)).
    lia.
  - subst after. unfold update_stats, aggregate. simpl.
    match goal with
    | |- context [foldl (track_call fromisoformat) ?s0 new_calls] =>
        apply (track_calls_dom new_calls s0)
    end.
Qed.

Lemma stats_runs_cons (i : stats_input) (rest : list stats_input) (st : store) :
  stats_runs fromisoformat (i :: rest) st =
    stats_runs fromisoformat rest (stats_step fromisoformat st i).
Proof. reflexivity. Qed.

Lemma stats_runs_totals (inputs : list stats_input) (st : store) :
  let before := loaded_stats st in
  let after := loaded_stats (stats_runs fromisoformat inputs st) in
  total_snapshots after = total_snapshots before + len inputs
  ∧ total_calls_tracked after = total_calls_tracked before + total_new inputs
  ∧ total_resolved after = total_resolved before + total_gone inputs.
Proof.
  revert st. induction inputs as [|i rest IH]; intros st.
  - unfold len. simpl. lia.
  - cbv zeta. rewrite stats_runs_cons.
    destruct (IH (stats_step fromisoformat st i)) as (Hs & Hn & Hg).
    rewrite Hs, Hn, Hg, loaded_stats_step.
    destruct (aggregate_scalars fromisoformat (in_timestamp i) (in_new_calls i)
                (in_resolved_calls i) (in_total_active i) (loaded_stats st))
      as (H1 & H2 & _ & _ & _ & H6).
    cbv zeta in H1, H2, H6. rewrite H1, H2, H6.
    unfold len. rewrite length_cons. simpl. unfold len. lia.
Qed.

(** X6: started with no stats file, after a sequence of runs
    [total_snapshots] is the number of runs, [total_calls_tracked] the
    number of new records summed over the runs and [total_resolved] the
    number of resolved records summed over the runs: a run with the same
    input as the one before adds its records again. *)
Theorem stats_runs_count_runs (inputs : list stats_input) (st : store) :
  let s := loaded_stats (stats_runs fromisoformat inputs (set_stats_file None st)) in
  total_snapshots s = len inputs
  ∧ total_calls_tracked s = total_new inputs
  ∧ total_resolved s = total_gone inputs
  ∧ (∀ i,
       let twice :=
         loaded_stats (stats_runs fromisoformat [i; i] (set_stats_file None st)) in
       total_calls_tracked twice = 2 * len (in_new_calls i)
       ∧ total_resolved twice = 2 * len (in_resolved_calls i)).
Proof.
  intros s.
  destruct (stats_runs_totals inputs (set_stats_file None st)) as (Hs & Hn & Hg).
  cbv zeta in Hs, Hn, Hg. fold s in Hs, Hn, Hg.
  split; [rewrite Hs; simpl; lia|]. split; [rewrite Hn; simpl; lia|].
  split; [rewrite Hg; simpl; lia|].
  intros i twice.
  destruct (stats_runs_totals [i; i] (set_stats_file None st)) as (_ & Hn2 & Hg2).
  cbv zeta in Hn2, Hg2. fold twice in Hn2, Hg2.
  rewrite Hn2, Hg2. simpl. lia.
Qed.

(** X7: over a sequence of runs [first_tracked] keeps its value when it
    had one and otherwise becomes the instant of the first run, and
    [last_updated] becomes the instant of the last run. *)
Theorem stats_runs_instants (inputs : list stats_input) (st : store) :
  let before := loaded_stats st in
  let after := loaded_stats (stats_runs fromisoformat inputs st) in
  first_tracked after =
    match first_tracked before with
    | Some earlier => Some earlier
    | None => in_timestamp <$> head inputs
    end
  ∧ last_updated after =
      match last inputs with
      | Some i => Some (in_timestamp i)
      | None => last_updated before
      end.
Proof.
  revert st. induction inputs as [|i rest IH]; intros st.
  - simpl. by destruct (first_tracked (loaded_stats st)).
  - cbv zeta. rewrite stats_runs_cons.
    destruct (IH (stats_step fromisoformat st i)) as (Hf & Hl).
    rewrite Hf, Hl, loaded_stats_step.
    destruct (aggregate_scalars fromisoformat (in_timestamp i) (in_new_calls i)
                (in_resolved_calls i) (in_total_active i) (loaded_stats st))
      as (_ & _ & H3 & H4 & _).
    cbv zeta in H3, H4. rewrite H3, H4. split.
    + by destruct (first_tracked (loaded_stats st)).
    + destruct rest as [|j rest']; [reflexivity|]. rewrite last_cons_cons.
      destruct (last (j :: rest')) eqn:Hlast; [done|].
      by apply last_None in Hlast.
Qed.

End StatsFurther.

Lemma aggregate_hours_dom (fromisoformat : string → option datetime)
    (timestamp : string) (new_calls resolved_calls : list call)
    (total_active : Z) (s : stats) :
  dom (hourly_distribution s) ⊆
    dom (hourly_distribution
           (aggregate fromisoformat timestamp new_calls resolved_calls
                      total_active s)).
Proof.
  unfold aggregate.
  match goal with
  | |- context [foldl (track_call fromisoformat) ?s0 new_calls] =>
      apply (track_calls_dom fromisoformat new_calls s0)
  end.
Qed.

Lemma stats_runs_hours_dom (fromisoformat : string → option datetime)
    (inputs : list stats_input) (st : store) :
  dom (hourly_distribution (loaded_stats st)) ⊆
    dom (hourly_distribution (loaded_stats (stats_runs fromisoformat inputs st))).
Proof.
  revert st. induction inputs as [|i rest IH]; intros st; [done|].
  rewrite stats_runs_cons. etrans; [|apply IH].
  rewrite loaded_stats_step. apply aggregate_hours_dom.
Qed.

Lemma zero_table_keys (hours : list Z) (h : Z) :
  h ∈ hours →
  is_Some ((list_to_map ((λ i : Z, (pretty i, 0)) <$> hours) : gmap string Z)
             !! pretty h).
Proof.
  intros Hin. exists 0. apply elem_of_list_to_map_1'.
  - intros y [k [[= Hk ->] _]]%list_elem_of_fmap. done.
  - apply list_elem_of_fmap. by exists h.
Qed.

Lemma default_hour_buckets :
  Forall (λ h : Z, pretty h ∈ dom (hourly_distribution default_stats)) (seqZ 0 24).
Proof.
  apply Forall_forall. intros h Hin. apply elem_of_dom.
  exact (zero_table_keys (seqZ 0 24) h Hin).
Qed.

(** X8: started with no stats file, the hourly histogram holds the
    twenty-four buckets ["0"] to ["23"] after every sequence of runs. *)
Theorem stats_runs_hour_buckets (fromisoformat : string → option datetime)
    (inputs : list stats_input) (st : store) :
  let s := loaded_stats (stats_runs fromisoformat inputs (set_stats_file None st)) in
  Forall (λ h : Z, is_Some (hourly_distribution s !! pretty h)) (seqZ 0 24).
Proof.
  intros s. eapply Forall_impl; [apply default_hour_buckets|].
  intros h Hh. cbv beta in Hh. apply elem_of_dom.
  by apply (stats_runs_hours_dom fromisoformat inputs (set_stats_file None st)).
Qed.

(** ** The main pipeline: what a run leaves in each file *)

Lemma string_app_assoc (a b c : string) : (a +:+ b) +:+ c = a +:+ (b +:+ c).
Proof.
  induction a as [|ch a IH]; [done|].
  rewrite !app_cons. by rewrite IH.
Qed.

Lemma starts_with_refl (text : string) : starts_with text text.
Proof.
  exists EmptyString. induction text as [|ch text IH]; [done|].
  rewrite app_cons. by rewrite <- IH.
Qed.

Lemma starts_with_app (text whole more : string) :
  starts_with text whole → starts_with text (whole +:+ more).
Proof.
  intros [rest ->]. exists (rest +:+ more). apply string_app_assoc.
Qed.

Section MainFurther.

Variable fromisoformat : string → option datetime.

(** The files after a run that fetched. *)
Lemma main_fetched (env : run_env) (st : store) (current_calls : list call) :
  fetch_active_calls (exchange env) = Some current_calls →
  let diff := compare_calls (snap_calls (load_previous_calls st)) current_calls in
  let after := snd (main fromisoformat env st) in
  current_calls_file after =
    Some (mk_snapshot current_calls (Some (fetched_at env))
                      (Some (len current_calls)))
  ∧ historical_log_file after =
      Some (default (log_banner (started_at env)) (historical_log_file st)
            +:+ log_block fromisoformat (fetched_at env) (fst diff) (snd diff)
                          (len current_calls))
  ∧ archive_dir after =
      archive_dir (archive_daily_data (local_date env) current_calls
                                      (fetched_at env) st)
  ∧ stats_file after =
      Some (aggregate fromisoformat (stats_at env) (fst diff) (snd diff)
                      (len current_calls) (loaded_stats st))
  ∧ ci_output after =
      (if github_output env
       then ci_output st +:+ ci_lines current_calls (fst diff) (snd diff)
       else ci_output st).
Proof.
  intros Hfetch diff after. subst diff after.
  unfold main. rewrite Hfetch.
  assert (load_previous_calls (init_log (started_at env) st)
          = load_previous_calls st) as ->.
  { unfold load_previous_calls, init_log. by destruct (historical_log_file st). }
  destruct (compare_calls (snap_calls (load_previous_calls st)) current_calls)
    as [new_calls resolved_calls].
  unfold init_log, loaded_stats.
  destruct (historical_log_file st) as [text|] eqn:Hlog;
    destruct (github_output env); simpl; rewrite ?Hlog; done.
Qed.

(** X9: a run exits with code 1 when the request or the decoding
    raised, and with code 0 when the body decoded to a list of records,
    to a dict whose ['data'] entry is a list of records, or to a value
    that is neither a list nor a dict with a ['data'] entry; in each of
    these cases it leaves a historical log.  A dict whose ['data'] entry
    is not a list of records is not among the bodies of [payload], and
    nothing is said of it. *)
Theorem main_exit_code (env : run_env) (st : store) :
  fst (main fromisoformat env st) =
    match exchange env with
    | Raised _ => 1
    | Decoded (Bare _) => 0
    | Decoded (Wrapped _) => 0
    | Decoded OtherShape => 0
    end
  ∧ is_Some (historical_log_file (snd (main fromisoformat env st))).
Proof.
  destruct (exchange env) as [e|data] eqn:Hx.
  - assert (fetch_active_calls (exchange env) = None) as Hfail by by rewrite Hx.
    rewrite (main_failed fromisoformat env st Hfail). simpl.
    split; [done|]. rewrite init_log_file.
    by destruct (historical_log_file st).
  - destruct (fetch_active_calls_decoded data) as [calls Hcalls].
    rewrite <- Hx in Hcalls. split.
    + rewrite (main_succeeds fromisoformat env st calls Hcalls).
      by destruct data.
    + destruct (main_fetched env st calls Hcalls) as (_ & Hlog & _).
      cbv zeta in Hlog. by rewrite Hlog.
Qed.

(** X10: after a run that fetched, the snapshot file holds the fetched
    records, their number and the instant of the fetch; the archive file
    of the local date ends with an entry holding the same three; the
    stats file exists and its peak is at least that number.  So the next
    run diffs against exactly these records. *)
Theorem main_files_agree (env : run_env) (st : store) (current_calls : list call)
    (Hfetch : fetch_active_calls (exchange env) = Some current_calls) :
  let after := snd (main fromisoformat env st) in
  load_previous_calls after =
    mk_snapshot current_calls (Some (fetched_at env)) (Some (len current_calls))
  ∧ (∃ data,
       archive_dir after !! archive_name (local_date env) = Some data
       ∧ last (archive_snapshots data) =
           Some (mk_archive_entry (fetched_at env) (len current_calls)
                                  current_calls))
  ∧ (∃ s, stats_file after = Some s
          ∧ len current_calls ≤ peak_active_calls s
          ∧ last_updated s = Some (stats_at env)).
Proof.
  intros after.
  destruct (main_fetched env st current_calls Hfetch)
    as (Hsnap & _ & Harch & Hstats & _).
  cbv zeta in Hsnap, Harch, Hstats. fold after in Hsnap, Harch, Hstats.
  split; [|split].
  - unfold load_previous_calls. by rewrite Hsnap.
  - rewrite Harch, archive_daily_data_dir, lookup_insert_eq.
    eexists. split; [done|]. simpl. apply last_snoc.
  - eexists. split; [exact Hstats|].
    match goal with
    | |- context [aggregate _ ?t ?n ?r ?a ?s] =>
        destruct (aggregate_scalars fromisoformat t n r a s)
          as (_ & _ & _ & Hlast & Hpeak & _)
    end.
    cbv zeta in Hlast, Hpeak. rewrite Hlast, Hpeak. split; [lia|done].
Qed.

Lemma main_log_grows (env : run_env) (st : store) (text : string) :
  historical_log_file st = Some text →
  ∃ whole, historical_log_file (snd (main fromisoformat env st)) = Some whole
           ∧ starts_with text whole.
Proof.
  intros Hlog.
  destruct (fetch_active_calls (exchange env)) as [calls|] eqn:Hfetch.
  - destruct (main_fetched env st calls Hfetch) as (_ & Hafter & _).
    cbv zeta in Hafter. rewrite Hafter, Hlog. simpl.
    eexists. split; [done|]. by eexists.
  - rewrite (main_failed fromisoformat env st Hfetch). simpl.
    rewrite init_log_file, Hlog. exists text. split; [done|].
    apply starts_with_refl.
Qed.

(** X11: the historical log is only appended to: after every sequence of
    runs, fetched or failed, a log that existed is still there and begins
    with its former text. *)
Theorem log_append_only (envs : list run_env) (st : store) (text : string)
    (Hlog : historical_log_file st = Some text) :
  ∃ whole, historical_log_file (run_all fromisoformat envs st) = Some whole
           ∧ starts_with text whole.
Proof.
  revert st text Hlog. induction envs as [|env rest IH]; intros st text Hlog.
  - exists text. split; [done|]. apply starts_with_refl.
  - change (run_all fromisoformat (env :: rest) st)
      with (run_all fromisoformat rest (snd (main fromisoformat env st))).
    destruct (main_log_grows env st text Hlog) as (mid & Hmid & [more ->]).
    destruct (IH _ _ Hmid) as (whole & Hwhole & Hstarts).
    exists whole. split; [done|].
    destruct Hstarts as [rest' ->]. exists (more +:+ rest').
    apply string_app_assoc.
Qed.

Lemma extends_archive_refl (data : archive_data) : extends_archive data data.
Proof. split; [done|]. exists []. by rewrite app_nil_r. Qed.

Lemma extends_archive_trans (a b c : archive_data) :
  extends_archive a b → extends_archive b c → extends_archive a c.
Proof.
  intros [Hd1 [add1 Hs1]] [Hd2 [add2 Hs2]]. split; [congruence|].
  exists (add1 ++ add2). rewrite Hs2, Hs1. by rewrite app_assoc.
Qed.

Lemma main_archive_grows (env : run_env) (st : store) (name : string)
    (old : archive_data) :
  archive_dir st !! name = Some old →
  ∃ new, archive_dir (snd (main fromisoformat env st)) !! name = Some new
         ∧ extends_archive old new.
Proof.
  intros Hold.
  destruct (fetch_active_calls (exchange env)) as [calls|] eqn:Hfetch.
  - destruct (main_fetched env st calls Hfetch) as (_ & _ & Harch & _).
    cbv zeta in Harch. rewrite Harch, archive_daily_data_dir.
    destruct (decide (archive_name (local_date env) = name)) as [<-|Hne].
    + rewrite lookup_insert_eq, Hold. eexists. split; [done|].
      split; [done|]. by eexists.
    + rewrite lookup_insert_ne by done. exists old. split; [done|].
      apply extends_archive_refl.
  - rewrite (main_failed fromisoformat env st Hfetch). simpl.
    destruct (init_log_frame (started_at env) st) as (_ & -> & _).
    exists old. split; [done|]. apply extends_archive_refl.
Qed.

(** X12: archive files are only appended to: after every sequence of
    runs, a file that existed is still there, with its date field and its
    former snapshot entries, in order, at the beginning of the
    sequence. *)
Theorem archive_append_only (envs : list run_env) (st : store) (name : string)
    (old : archive_data) (Hold : archive_dir st !! name = Some old) :
  ∃ new, archive_dir (run_all fromisoformat envs st) !! name = Some new
         ∧ extends_archive old new.
Proof.
  revert st old Hold. induction envs as [|env rest IH]; intros st old Hold.
  - exists old. split; [done|]. apply extends_archive_refl.
  - change (run_all fromisoformat (env :: rest) st)
      with (run_all fromisoformat rest (snd (main fromisoformat env st))).
    destruct (main_archive_grows env st name old Hold) as (mid & Hmid & Hext1).
    destruct (IH _ _ Hmid) as (new & Hnew & Hext2).
    exists new. split; [done|]. by apply (extends_archive_trans old mid new).
Qed.

End MainFurther.

Lemma main_files_agree_witness :
  snap_calls (load_previous_calls (snd (main Iso.parse env_two_calls empty_store)))
    = [call_stop; call_bad_date]
  ∧ snap_count (load_previous_calls (snd (main Iso.parse env_two_calls empty_store)))
    = Some 2.
Proof.
  assert (fetch_active_calls (exchange env_two_calls)
          = Some [call_stop; call_bad_date]) as Hfetch by reflexivity.
  destruct (main_files_agree Iso.parse env_two_calls empty_store
              [call_stop; call_bad_date] Hfetch) as (Hsnap & _).
  cbv zeta in Hsnap. rewrite Hsnap. split; reflexivity.
Defined.

Lemma log_append_only_witness :
  ∃ whole,
    historical_log_file
      (run_all Iso.parse [env_two_calls; env_timeout; env_one_call]
               (snd (main Iso.parse env_timeout empty_store))) = Some whole
    ∧ starts_with (log_banner "2024-01-15T19:30:00+00:00") whole.
Proof.
  apply (log_append_only Iso.parse). reflexivity.
Defined.

Lemma archive_append_only_witness :
  ∃ new,
    archive_dir
      (run_all Iso.parse [env_timeout; env_one_call]
               (snd (main Iso.parse env_two_calls empty_store)))
      !! archive_name "2024-01-15" = Some new
    ∧ extends_archive
        (mk_archive_data "2024-01-15"
           [mk_archive_entry "2024-01-15T19:45:01+00:00" 2
                             [call_stop; call_bad_date]])
        new.
Proof.
  apply (archive_append_only Iso.parse). vm_compute. reflexivity.
Defined.

(** ** The main pipeline: repeated, first and unrecognised payloads *)

Section MainEdges.

Variable fromisoformat : string → option datetime.

Lemma aggregate_nothing_new (timestamp : string) (resolved_calls : list call)
    (total_active : Z) (s : stats) :
  let s' := aggregate fromisoformat timestamp [] resolved_calls total_active s in
  call_types s' = call_types s
  ∧ addresses s' = addresses s
  ∧ hourly_distribution s' = hourly_distribution s
  ∧ total_calls_tracked s' = total_calls_tracked s.
Proof. unfold aggregate, len. simpl. repeat split; lia. Qed.

(** X13: when a run fetches the very records the run before it fetched,
    it reports nothing new and nothing resolved: the totals and the three
    tables stay as they were, [total_snapshots] grows by one, and the log
    gains the block that says there was no change. *)
Theorem main_same_payload_again (env1 env2 : run_env) (st : store)
    (current_calls : list call)
    (Hfirst : fetch_active_calls (exchange env1) = Some current_calls)
    (Hagain : fetch_active_calls (exchange env2) = Some current_calls) :
  let st1 := snd (main fromisoformat env1 st) in
  let st2 := snd (main fromisoformat env2 st1) in
  total_calls_tracked (loaded_stats st2) = total_calls_tracked (loaded_stats st1)
  ∧ total_resolved (loaded_stats st2) = total_resolved (loaded_stats st1)
  ∧ total_snapshots (loaded_stats st2) = total_snapshots (loaded_stats st1) + 1
  ∧ call_types (loaded_stats st2) = call_types (loaded_stats st1)
  ∧ addresses (loaded_stats st2) = addresses (loaded_stats st1)
  ∧ hourly_distribution (loaded_stats st2) = hourly_distribution (loaded_stats st1)
  ∧ historical_log_file st2 =
      Some (default EmptyString (historical_log_file st1)
            +:+ log_block fromisoformat (fetched_at env2) [] []
                          (len current_calls)).
Proof.
  intros st1 st2.
  destruct (main_fetched fromisoformat env1 st current_calls Hfirst)
    as (Hsnap1 & Hlog1 & _).
  cbv zeta in Hsnap1, Hlog1. fold st1 in Hsnap1, Hlog1.
  destruct (main_fetched fromisoformat env2 st1 current_calls Hagain)
    as (_ & Hlog2 & _ & Hstats2 & _).
  cbv zeta in Hlog2, Hstats2. fold st2 in Hlog2, Hstats2.
  assert (snap_calls (load_previous_calls st1) = current_calls) as Hprev
    by (unfold load_previous_calls; by rewrite Hsnap1).
  rewrite Hprev, compare_calls_self in Hlog2, Hstats2. simpl in Hlog2, Hstats2.
  assert (loaded_stats st2 =
            aggregate fromisoformat (stats_at env2) [] [] (len current_calls)
                      (loaded_stats st1)) as ->
    by (unfold loaded_stats at 1; by rewrite Hstats2).
  destruct (aggregate_nothing_new (stats_at env2) [] (len current_calls)
              (loaded_stats st1)) as (Ht & Ha & Hh & Hn).
  destruct (aggregate_scalars fromisoformat (stats_at env2) [] []
              (len current_calls) (loaded_stats st1))
    as (_ & Hres & _ & _ & _ & Hsn).
  cbv zeta in Ht, Ha, Hh, Hn, Hres, Hsn.
  rewrite Ht, Ha, Hh, Hn, Hres, Hsn.
  repeat split; try done.
  - unfold len. simpl. lia.
  - rewrite Hlog2, Hlog1. done.
Qed.

(** X14: on a checkout without a snapshot file every fetched record is
    reported new and none resolved: the run adds the number of fetched
    records to [total_calls_tracked] and nothing to [total_resolved]. *)
Theorem main_first_poll (env : run_env) (st : store) (current_calls : list call)
    (Hnone : current_calls_file st = None)
    (Hfetch : fetch_active_calls (exchange env) = Some current_calls) :
  let after := loaded_stats (snd (main fromisoformat env st)) in
  total_calls_tracked after
    = total_calls_tracked (loaded_stats st) + len current_calls
  ∧ total_resolved after = total_resolved (loaded_stats st)
  ∧ ∀ key,
      count_of key (call_types after) =
        count_of key (call_types (loaded_stats st))
        + len (filter (λ c, get_default c "Online_Description" "Unknown" = key)
                      current_calls).
Proof.
  intros after.
  destruct (main_fetched fromisoformat env st current_calls Hfetch)
    as (_ & _ & _ & Hstats & _).
  cbv zeta in Hstats.
  assert (snap_calls (load_previous_calls st) = []) as Hprev
    by (unfold load_previous_calls; by rewrite Hnone).
  rewrite Hprev, compare_calls_nil_l in Hstats. simpl in Hstats.
  assert (after =
            aggregate fromisoformat (stats_at env) current_calls []
                      (len current_calls) (loaded_stats st)) as ->
    by (subst after; unfold loaded_stats at 1; by rewrite Hstats).
  destruct (aggregate_scalars fromisoformat (stats_at env) current_calls []
              (len current_calls) (loaded_stats st)) as (Hn & Hr & _).
  cbv zeta in Hn, Hr. rewrite Hn, Hr.
  split; [done|]. split; [unfold len; simpl; lia|].
  intros key. unfold aggregate. by rewrite track_calls_count_types.
Qed.

(** X15: a body that is neither a list nor a dict with a ['data'] entry
    is taken as no active call: the run exits with code 0, writes a
    snapshot with no record and count 0, and reports every record of the
    previous snapshot resolved and none new. *)
Theorem main_unknown_shape (env : run_env) (st : store)
    (Hshape : exchange env = Decoded OtherShape) :
  let previous_calls := snap_calls (load_previous_calls st) in
  let after := snd (main fromisoformat env st) in
  fst (main fromisoformat env st) = 0
  ∧ current_calls_file after =
      Some (mk_snapshot [] (Some (fetched_at env)) (Some 0))
  ∧ total_resolved (loaded_stats after)
      = total_resolved (loaded_stats st) + len previous_calls
  ∧ total_calls_tracked (loaded_stats after) = total_calls_tracked (loaded_stats st)
  ∧ peak_active_calls (loaded_stats after)
      = Z.max (peak_active_calls (loaded_stats st)) 0.
Proof.
  intros previous_calls after.
  assert (fetch_active_calls (exchange env) = Some []) as Hfetch
    by by rewrite Hshape.
  destruct (main_fetched fromisoformat env st [] Hfetch)
    as (Hsnap & _ & _ & Hstats & _).
  cbv zeta in Hsnap, Hstats. fold after previous_calls in Hsnap, Hstats.
  rewrite compare_calls_nil_r in Hstats. simpl in Hstats.
  split; [by apply (main_succeeds fromisoformat env st [])|].
  split; [exact Hsnap|].
  assert (loaded_stats after =
            aggregate fromisoformat (stats_at env) [] previous_calls (len (@nil call))
                      (loaded_stats st)) as ->
    by (unfold loaded_stats at 1; by rewrite Hstats).
  destruct (aggregate_scalars fromisoformat (stats_at env) [] previous_calls
              (len (@nil call)) (loaded_stats st)) as (Hn & Hr & _ & _ & Hp & _).
  cbv zeta in Hn, Hr, Hp. rewrite Hn, Hr, Hp.
  split; [done|]. split; [unfold len; simpl; lia | done].
Qed.

End MainEdges.

Lemma main_same_payload_again_witness :
  let st1 := snd (main Iso.parse env_two_calls empty_store) in
  let st2 := snd (main Iso.parse env_two_calls_again st1) in
  total_calls_tracked (loaded_stats st1) = 2
  ∧ total_calls_tracked (loaded_stats st2) = 2
  ∧ total_snapshots (loaded_stats st2) = 2.
Proof.
  intros st1 st2.
  assert (total_calls_tracked (loaded_stats st1) = 2) as H1
    by (vm_compute; reflexivity).
  assert (total_snapshots (loaded_stats st1) = 1) as H2
    by (vm_compute; reflexivity).
  destruct (main_same_payload_again Iso.parse env_two_calls env_two_calls_again
              empty_store [call_stop; call_bad_date] eq_refl eq_refl)
    as (Hn & _ & Hs & _).
  cbv zeta in Hn, Hs. fold st1 in Hn, Hs. fold st2 in Hn, Hs.
  rewrite Hn, Hs, H1, H2. repeat split.
Defined.

Lemma main_first_poll_witness :
  total_calls_tracked
    (loaded_stats (snd (main Iso.parse env_two_calls empty_store))) = 2
  ∧ total_resolved
      (loaded_stats (snd (main Iso.parse env_two_calls empty_store))) = 0.
Proof.
  destruct (main_first_poll Iso.parse env_two_calls empty_store
              [call_stop; call_bad_date] eq_refl eq_refl) as (Hn & Hr & _).
  cbv zeta in Hn, Hr. rewrite Hn, Hr. split; reflexivity.
Defined.

Lemma main_unknown_shape_witness :
  let st1 := snd (main Iso.parse env_two_calls empty_store) in
  fst (main Iso.parse env_unknown_shape st1) = 0
  ∧ total_resolved (loaded_stats (snd (main Iso.parse env_unknown_shape st1))) = 2.
Proof.
  intros st1.
  destruct (main_unknown_shape Iso.parse env_unknown_shape st1 eq_refl)
    as (Hcode & _ & Hres & _).
  cbv zeta in Hres. split; [exact Hcode|].
  rewrite Hres. vm_compute. reflexivity.
Defined.

(** ** The Alert Evaluator: any configuration *)

Lemma upper_ascii_not_lower (c : ascii) : is_lower (PyStr.upper_ascii c) = false.
Proof. by destruct c as [[] [] [] [] [] [] [] []]. Qed.

Lemma has_lower_upper (s : string) : has_lower (PyStr.upper s) = false.
Proof.
  induction s as [|c s IH]; [done|].
  simpl. by rewrite upper_ascii_not_lower, IH.
Qed.

Lemma has_lower_app (a b : string) :
  has_lower (a +:+ b) = has_lower a || has_lower b.
Proof.
  induction a as [|c a IH]; [done|].
  rewrite app_cons. simpl. rewrite IH. by rewrite orb_assoc.
Qed.

Lemma first_match_fires {A} (test : A → bool) (xs : list A) :
  Alerts.first_match test xs ≠ None ↔ ∃ x, x ∈ xs ∧ test x = true.
Proof.
  rewrite first_match_None. split.
  - intros Hn. induction xs as [|z rest IH].
    + exfalso. apply Hn. intros y Hy. by apply not_elem_of_nil in Hy.
    + destruct (test z) eqn:Hz.
      * exists z. split; [left | done].
      * destruct IH as (x & Hx & Ht).
        { intros Hall. apply Hn. intros y [->|Hy]%elem_of_cons; auto. }
        exists x. split; [by right | done].
  - intros (x & Hx & Ht) Hall. rewrite (Hall x Hx) in Ht. done.
Qed.

Lemma type_rule_fires (types : list string) (c : call) :
  Alerts.type_rule types c ≠ [] ↔
  Alerts.first_match
    (λ alert_type,
       PyStr.contains alert_type
         (PyStr.upper (get_default c "Online_Description" EmptyString)))
    types ≠ None.
Proof. unfold Alerts.type_rule. by destruct (Alerts.first_match _ types). Qed.

Lemma address_rule_fires (addrs : list string) (c : call) :
  Alerts.address_rule addrs c ≠ [] ↔
  Alerts.first_match
    (λ alert_addr,
       PyStr.contains (PyStr.upper alert_addr)
         (PyStr.upper (get_default c "Address" EmptyString)))
    addrs ≠ None.
Proof. unfold Alerts.address_rule. by destruct (Alerts.first_match _ addrs). Qed.

(** X16: with any list of watched addresses, when the record's address
    (the empty text when the field is missing) and the watched entries
    hold ASCII characters only, the address rule fires for the record
    exactly when the address contains one of the entries with the case of
    the letters ignored, and it yields no alert or one.  The two
    conditions keep the statement to the text on which [PyStr.upper] is
    [str.upper()]. *)
Theorem address_rule_case_insensitive (addrs : list string) (c : call)
    (Haddress : ascii_only (get_default c "Address" EmptyString) = true)
    (Hwatched : Forall (λ watched, ascii_only watched = true) addrs) :
  (Alerts.address_rule addrs c ≠ [] ↔
     ∃ watched, watched ∈ addrs
                ∧ PyStr.contains_ci watched (get_default c "Address" EmptyString))
  ∧ (length (Alerts.address_rule addrs c) ≤ 1)%nat.
Proof.
  split.
  - rewrite address_rule_fires, first_match_fires.
    unfold PyStr.contains_ci. by setoid_rewrite contains_spec.
  - unfold Alerts.address_rule.
    destruct (Alerts.first_match _ addrs); simpl; lia.
Qed.

Lemma address_rule_case_insensitive_witness :
  ascii_only (get_default call_stop "Address" EmptyString) = true
  ∧ Forall (λ watched, ascii_only watched = true) ["Court St"; "cleveland st"]
  ∧ Alerts.address_rule ["Court St"; "cleveland st"] call_stop ≠ []
  ∧ (length (Alerts.address_rule ["Court St"; "cleveland st"] call_stop) ≤ 1)%nat.
Proof.
  assert (ascii_only (get_default call_stop "Address" EmptyString) = true)
    as Haddress by (vm_compute; reflexivity).
  assert (Forall (λ watched, ascii_only watched = true)
                 ["Court St"; "cleveland st"]) as Hwatched
    by (repeat constructor).
  split; [exact Haddress|]. split; [exact Hwatched|].
  destruct (address_rule_case_insensitive ["Court St"; "cleveland st"]
              call_stop Haddress Hwatched) as (Hiff & Hlen).
  split; [|exact Hlen].
  apply Hiff. exists "cleveland st". split; [right; left|].
  exists "100 ", EmptyString. vm_compute. reflexivity.
Defined.

(** X17: with any list of watched call types, the type rule fires for a
    record exactly when its description in upper case contains one of the
    watched entries as written; an entry that holds a lower-case letter
    therefore never fires, whatever the description. *)
Theorem type_rule_entry_as_written (types : list string) (c : call) :
  Alerts.type_rule types c ≠ [] ↔
  ∃ watched,
    watched ∈ types
    ∧ has_lower watched = false
    ∧ ∃ pre post,
        PyStr.upper (get_default c "Online_Description" EmptyString)
        = pre +:+ watched +:+ post.
Proof.
  rewrite type_rule_fires, first_match_fires.
  split.
  - intros (w & Hin & Hc). apply contains_spec in Hc as (pre & post & Heq).
    exists w. split; [done|]. split; [|by exists pre, post].
    pose proof (has_lower_upper
                  (get_default c "Online_Description" EmptyString)) as Hup.
    rewrite Heq, !has_lower_app in Hup.
    destruct (has_lower w); [|done].
    by rewrite orb_true_r in Hup.
  - intros (w & Hin & _ & Hsplit). exists w. split; [done|].
    by apply contains_spec.
Qed.

Lemma send_without_webhook (accepted : Alerts.embed → bool)
    (alerts : list Alerts.alert) (webhook : option string) :
  webhook = None ∨ webhook = Some EmptyString →
  Forall (λ o, o = Alerts.NotConfigured)
         (Alerts.send_discord_alert webhook accepted <$> alerts).
Proof.
  intros Hweb. apply Forall_fmap, Forall_forall. intros a _.
  by destruct Hweb as [-> | ->].
Qed.

Lemma delivered_not_configured (outcomes : list Alerts.send_outcome) :
  Forall (λ o, o = Alerts.NotConfigured) outcomes →
  Alerts.delivered outcomes = [].
Proof.
  induction 1 as [|o rest -> _ IH]; [done|].
  by rewrite delivered_cons.
Qed.

(** X18: when [DISCORD_WEBHOOK_URL] is unset or empty, the evaluator
    posts nothing: every call of the sender returns without a POST,
    whatever the snapshot holds. *)
Theorem alerts_without_webhook (accepted : Alerts.embed → bool) (st : store)
    (webhook : option string)
    (Hweb : webhook = None ∨ webhook = Some EmptyString) :
  Forall (λ o, o = Alerts.NotConfigured) (Alerts.main webhook accepted st)
  ∧ Alerts.delivered (Alerts.main webhook accepted st) = [].
Proof.
  assert (Forall (λ o, o = Alerts.NotConfigured)
                 (Alerts.main webhook accepted st)) as Hall.
  { unfold Alerts.main. destruct (current_calls_file st); [|constructor].
    by apply send_without_webhook. }
  split; [exact Hall | by apply delivered_not_configured].
Qed.

Lemma alerts_without_webhook_witness :
  Alerts.delivered
    (Alerts.main (Some EmptyString) (λ _, true) (store_with twelve_calls)) = [].
Proof.
  apply (alerts_without_webhook (λ _, true) (store_with twelve_calls)
           (Some EmptyString)).
  by right.
Defined.

Lemma bind_length_le {A B} (f : A → list B) (k : nat) (xs : list A) :
  (∀ x, length (f x) ≤ k)%nat → (length (xs ≫= f) ≤ k * length xs)%nat.
Proof.
  intros Hk. induction xs as [|x rest IH]; [simpl; lia|].
  rewrite bind_cons, length_app, length_cons. specialize (Hk x). lia.
Qed.

(** X19: with any threshold and any watched lists, the alerts of one
    evaluation are the volume alert, if any, followed for each new record
    in order by its type alert, if any, and then its address alert, if
    any; so there are at most one plus twice the number of new records,
    and none when there is no new record and the threshold is not
    reached. *)
Theorem check_alerts_with_shape (threshold : Z) (types addrs : list string)
    (current_calls new_calls : list call) :
  let alerts :=
    Alerts.check_alerts_with threshold types addrs current_calls new_calls in
  alerts =
    (if decide (threshold ≤ len current_calls)
     then [Alerts.volume_alert current_calls] else [])
    ++ (new_calls ≫= λ c, Alerts.type_rule types c ++ Alerts.address_rule addrs c)
  ∧ (length alerts ≤ 1 + 2 * length new_calls)%nat
  ∧ Alerts.check_alerts_with threshold types addrs current_calls [] =
      (if decide (threshold ≤ len current_calls)
       then [Alerts.volume_alert current_calls] else []).
Proof.
  intros alerts.
  assert (Alerts.volume_rule threshold current_calls =
            (if decide (threshold ≤ len current_calls)
             then [Alerts.volume_alert current_calls] else [])) as Hvol.
  { unfold Alerts.volume_rule.
    destruct (decide (threshold ≤ len current_calls)) as [Hge|Hlt].
    - by apply Z.leb_le in Hge as ->.
    - by apply Z.leb_nle in Hlt as ->. }
  assert (∀ new,
            Alerts.check_alerts_with threshold types addrs current_calls new =
              (if decide (threshold ≤ len current_calls)
               then [Alerts.volume_alert current_calls] else [])
              ++ (new ≫= λ c, Alerts.type_rule types c
                               ++ Alerts.address_rule addrs c)) as Hshape.
  { intros new. unfold Alerts.check_alerts_with.
    rewrite foldl_append, Hvol. done. }
  split; [apply Hshape|]. split.
  - subst alerts. rewrite Hshape, length_app.
    assert (length (new_calls ≫= λ c, Alerts.type_rule types c
                                      ++ Alerts.address_rule addrs c)
            ≤ 2 * length new_calls)%nat as Hrec.
    { apply bind_length_le. intros c. rewrite length_app.
      unfold Alerts.type_rule, Alerts.address_rule.
      destruct (Alerts.first_match _ types), (Alerts.first_match _ addrs);
        simpl; lia. }
    destruct (decide (threshold ≤ len current_calls)); simpl; lia.
  - rewrite Hshape. simpl. by rewrite app_nil_r.
Qed.

(** ** Timestamps handed to the parser *)

Lemma has_char_app (ch : ascii) (a b : string) :
  has_char ch (a +:+ b) = has_char ch a || has_char ch b.
Proof.
  induction a as [|c a IH]; [done|].
  rewrite app_cons. simpl. rewrite IH. by rewrite orb_assoc.
Qed.

Lemma replace_char_cons (old : ascii) (new : string) (c : ascii) (s : string) :
  PyStr.replace_char old new (String c s) =
    if Ascii.eqb c old then new +:+ PyStr.replace_char old new s
    else String c (PyStr.replace_char old new s).
Proof. reflexivity. Qed.

Lemma replace_char_app (old : ascii) (new a b : string) :
  PyStr.replace_char old new (a +:+ b) =
    PyStr.replace_char old new a +:+ PyStr.replace_char old new b.
Proof.
  induction a as [|c a IH]; [done|].
  rewrite app_cons, !replace_char_cons, IH.
  destruct (Ascii.eqb c old); [by rewrite string_app_assoc | by rewrite app_cons].
Qed.

Lemma replace_char_absent (old : ascii) (new s : string) :
  has_char old s = false → PyStr.replace_char old new s = s.
Proof.
  induction s as [|c s IH]; [done|].
  simpl has_char. rewrite replace_char_cons.
  destruct (Ascii.eqb c old); [done|].
  intros Hs. by rewrite IH.
Qed.

(** X20: a response time without the letter [Z] reaches the parser as it
    is; every [Z], wherever it stands, reaches it as [+00:00], so the
    parser is never handed a [Z]. *)
Theorem parse_response_date_zulu (fromisoformat : string → option datetime)
    (response_date_str : string) :
  (has_char "Z" response_date_str = false →
   parse_response_date fromisoformat response_date_str
   = fromisoformat response_date_str)
  ∧ parse_response_date fromisoformat (response_date_str +:+ "Z")
    = parse_response_date fromisoformat (response_date_str +:+ "+00:00")
  ∧ has_char "Z" (PyStr.replace_char "Z" "+00:00" response_date_str) = false.
Proof.
  unfold parse_response_date. split; [|split].
  - intros Hno. by rewrite replace_char_absent.
  - by rewrite !replace_char_app.
  - induction response_date_str as [|c s IH]; [done|].
    rewrite replace_char_cons. destruct (Ascii.eqb c "Z") eqn:Hc.
    + rewrite has_char_app, IH. done.
    + simpl. by rewrite Hc, IH.
Qed.

Example parse_response_date_zulu_sample :
  dt_hour <$> parse_response_date Iso.parse "2024-01-15T14:30:00Z" = Some 14
  ∧ parse_response_date Iso.parse "not-a-date" = None
  ∧ parse_response_date Iso.parse EmptyString = None.
Proof. vm_compute. repeat split. Qed.

(** ** The Summary Renderer *)

Lemma insert_by_count_perm (x : string * Z) (l : list (string * Z)) :
  insert_by_count x l ≡ₚ x :: l.
Proof.
  induction l as [|y rest IH]; [done|]. simpl.
  destruct (snd y <=? snd x); [done|].
  rewrite IH. apply Permutation_swap.
Qed.

Lemma insert_by_count_sorted (x : string * Z) (l : list (string * Z)) :
  StronglySorted (λ a b, snd b ≤ snd a) l →
  StronglySorted (λ a b, snd b ≤ snd a) (insert_by_count x l).
Proof.
  induction 1 as [|y rest Hrest IH Hall]; simpl.
  - repeat constructor.
  - destruct (snd y <=? snd x) eqn:Hle.
    + apply Z.leb_le in Hle. constructor; [by constructor|].
      constructor; [done|].
      eapply Forall_impl; [exact Hall|]. simpl. intros z Hz. lia.
    + apply Z.leb_gt in Hle. constructor; [done|].
      rewrite insert_by_count_perm. constructor; [lia | done].
Qed.

Lemma insert_by_count_filter (n : Z) (x : string * Z) (l : list (string * Z)) :
  filter (λ e, snd e = n) (insert_by_count x l) =
    filter (λ e, snd e = n) (x :: l).
Proof.
  induction l as [|y rest IH]; [done|]. simpl.
  destruct (snd y <=? snd x) eqn:Hle; [done|].
  apply Z.leb_gt in Hle.
  rewrite (filter_cons _ y), IH, !(filter_cons _ x), (filter_cons _ y).
  destruct (decide (snd x = n)), (decide (snd y = n)); try done. lia.
Qed.

Lemma sorted_by_count_perm (items : list (string * Z)) :
  sorted_by_count items ≡ₚ items.
Proof.
  unfold sorted_by_count. induction items as [|x rest IH]; [done|].
  simpl. by rewrite insert_by_count_perm, IH.
Qed.

Lemma sorted_by_count_sorted (items : list (string * Z)) :
  StronglySorted (λ a b, snd b ≤ snd a) (sorted_by_count items).
Proof.
  unfold sorted_by_count. induction items as [|x rest IH]; [constructor|].
  simpl. by apply insert_by_count_sorted.
Qed.

(** X21: the order the digest uses is a stable sort by count, largest
    first: the sorted entries are the given entries rearranged, each
    count is at most the counts before it, and the entries of one count
    stand in the order they had in the dictionary. *)
Theorem sorted_by_count_stable (items : list (string * Z)) :
  sorted_by_count items ≡ₚ items
  ∧ StronglySorted (λ a b, snd b ≤ snd a) (sorted_by_count items)
  ∧ ∀ n, filter (λ e, snd e = n) (sorted_by_count items)
         = filter (λ e, snd e = n) items.
Proof.
  split; [apply sorted_by_count_perm|]. split; [apply sorted_by_count_sorted|].
  intros n. unfold sorted_by_count.
  induction items as [|x rest IH]; [done|]. simpl.
  by rewrite insert_by_count_filter, !filter_cons, IH.
Qed.

(** X22: each top-10 list of the digest has at most ten entries, all of
    them entries of the table; no entry left out has a larger count than
    an entry listed; and a table of at most ten entries is listed
    whole. *)
Theorem top_10_largest (items : list (string * Z)) :
  (length (top_10 items) ≤ 10)%nat
  ∧ (∀ e, e ∈ top_10 items → e ∈ items)
  ∧ (∀ listed omitted,
       listed ∈ top_10 items →
       omitted ∈ drop 10 (sorted_by_count items) →
       snd omitted ≤ snd listed)
  ∧ top_10 items ++ drop 10 (sorted_by_count items) ≡ₚ items
  ∧ ((length items ≤ 10)%nat → top_10 items = sorted_by_count items).
Proof.
  pose proof (sorted_by_count_perm items) as Hperm.
  pose proof (sorted_by_count_sorted items) as Hsorted.
  unfold top_10. split; [|split; [|split; [|split]]].
  - rewrite length_take. lia.
  - intros e He. rewrite <- Hperm.
    by apply (subseteq_take 10 (sorted_by_count items)).
  - intros listed omitted Hl Ho.
    rewrite <- (take_drop 10 (sorted_by_count items)) in Hsorted.
    by apply (StronglySorted_app_1_elem_of _ _ _ listed omitted Hsorted).
  - by rewrite take_drop.
  - intros Hlen. apply take_ge. by rewrite Hperm.
Qed.

Example top_10_sample :
  sorted_by_count sample_items =
    [("ALARM", 7); ("NOISE", 7); ("TRAFFIC STOP", 3); ("WELFARE CHECK", 3);
     ("THEFT", 1)]
  ∧ summary_entries (take 2 (top_10 sample_items)) =
      "- ALARM: 7" +:+ nl +:+ "- NOISE: 7" +:+ nl.
Proof. vm_compute. split; reflexivity. Qed.
